(** * Vanessa: a man-in-the-middle HTTP/HTTPS/WebSocket proxy

    A shallow embedding of the connection-dispatch engine of Vanessa
    (the [Vanessa] class derived from Koa, the server-side proxy
    middleware and the client-side system-proxy resolver), and the
    properties of it that the specification states.

    JavaScript objects used as dictionaries ([sslServers],
    [sslSemaphores], [connectRequests], [process.env], option bags) are
    finite maps keyed by strings; only own properties are modelled.  The
    event loop is a list of scheduled callbacks, one of which runs per
    step. *)

From stdpp Require Import gmap strings list fin_maps pretty.
From Stdlib Require Import ZArith Ascii String.
From Stdlib.Strings Require Import Byte.

Open Scope string_scope.
Open Scope list_scope.

(** ** Hostnames and wildcard keys *)

Module Hostname.

(** [req.url.split(':', 2)[0]]: the part of the CONNECT target before
    its first colon (the whole string when there is none). *)
Fixpoint hostname_of_url (url : string) : string :=
  match url with
  | EmptyString => EmptyString
  | String c rest =>
      if decide (c = ":"%char) then EmptyString
      else String c (hostname_of_url rest)
  end.

(** The greedy run [[^\.]+] has started; [end_of_label s] is what
    follows the dot that ends it, if there is one. *)
Fixpoint end_of_label (s : string) : option string :=
  match s with
  | EmptyString => None
  | String c rest =>
      if decide (c = "."%char) then Some rest else end_of_label rest
  end.

(** [hostname.replace(/[^\.]+\./, '*.')]: the leftmost match of one or
    more non-dot characters followed by a dot is replaced by ["*."].  A
    match cannot start at a dot; at a non-dot character it succeeds
    exactly when a dot occurs later, and if none does no later
    position matches either, so the string is returned as it is. *)
Fixpoint wildcardHost (hostname : string) : string :=
  match hostname with
  | EmptyString => EmptyString
  | String c rest =>
      if decide (c = "."%char) then String c (wildcardHost rest)
      else match end_of_label rest with
           | Some tail => ("*." ++ tail)%string
           | None => hostname
           end
  end.

(** [has_dot s]: some character of [s] is a dot. *)
Fixpoint has_dot (s : string) : bool :=
  match s with
  | EmptyString => false
  | String c rest => if decide (c = "."%char) then true else has_dot rest
  end.

(** [has_colon s]: some character of [s] is a colon. *)
Fixpoint has_colon (s : string) : bool :=
  match s with
  | EmptyString => false
  | String c rest => if decide (c = ":"%char) then true else has_colon rest
  end.

End Hostname.

(** ** The SSL server pool and the CONNECT dispatcher *)

Module Pool.
Import Hostname.

(** The part of an [http.IncomingMessage] the proxy reads. *)
Record request : Type := Request {
  url : string;
  remoteAddress : string
}.

(** What a CONNECT handler closes over: the request and the preview
    bytes ([head]); the client socket is the request's own. *)
Record connectData : Type := ConnectData {
  req : request;
  head : list byte
}.

(** A value of [this.sslServers]: [{server, wsServer, port}] for a
    listener the pool owns, [{port}] for an alias.  The alias branch
    stores the wildcard's entry itself in [port], so a port is a number
    or an entry. *)
Inductive sslServer : Type :=
  | SslServer (server : option nat) (wsServer : option nat) (port : portValue)
with portValue : Type :=
  | PortNumber (n : Z)
  | PortObject (entry : sslServer).

Definition server (e : sslServer) : option nat :=
  match e with SslServer s _ _ => s end.

Definition port (e : sslServer) : portValue :=
  match e with SslServer _ _ p => p end.

(** The object returned by [semaphore(capacity)] of the [semaphore]
    package, a dependency of the proxy: a counter of taken slots and a
    FIFO queue of waiting tasks. *)
Record semaphore : Type := Semaphore {
  capacity : Z;
  current : Z;
  queue : list connectData
}.

(** Callbacks handed to the event loop. *)
Inductive callback : Type :=
  | Leave (wildcard : string)               (* process.nextTick(sem.leave.bind(sem)) *)
  | Taken (c : connectData)                 (* nextTick(item.task), from sem.leave *)
  | Listening (c : connectData) (lid : nat) (* the callback of httpsServer.listen *).

(** What the dispatcher does to the outside world, most recent first. *)
Inductive effect : Type :=
  | CreateServer (lid : nat) (hostname : string)
  | MakeConnection (c : connectData) (p : portValue)
  | ThrowError (message : string).

Record state : Type := State {
  sslServers : gmap string sslServer;
  sslSemaphores : gmap string semaphore;
  httpPort : Z;                (* this.httpServer.address()['port'] *)
  created : nat;               (* listeners created so far; the next listener's id *)
  scheduled : list callback;
  effects : list effect
}.

Definition listen (p : Z) : state :=
  {| sslServers := ∅; sslSemaphores := ∅; httpPort := p;
     created := 0; scheduled := []; effects := [] |}.

Definition set_sslServers (f : gmap string sslServer → gmap string sslServer) (st : state) : state :=
  {| sslServers := f (sslServers st); sslSemaphores := sslSemaphores st;
     httpPort := httpPort st; created := created st;
     scheduled := scheduled st; effects := effects st |}.

Definition set_sslSemaphores (f : gmap string semaphore → gmap string semaphore) (st : state) : state :=
  {| sslServers := sslServers st; sslSemaphores := f (sslSemaphores st);
     httpPort := httpPort st; created := created st;
     scheduled := scheduled st; effects := effects st |}.

Definition set_scheduled (f : list callback → list callback) (st : state) : state :=
  {| sslServers := sslServers st; sslSemaphores := sslSemaphores st;
     httpPort := httpPort st; created := created st;
     scheduled := f (scheduled st); effects := effects st |}.

Definition emit (e : effect) (st : state) : state :=
  {| sslServers := sslServers st; sslSemaphores := sslSemaphores st;
     httpPort := httpPort st; created := created st;
     scheduled := scheduled st; effects := e :: effects st |}.

(** A callback scheduled now runs after those already scheduled. *)
Definition schedule (cb : callback) : state → state :=
  set_scheduled (λ l, l ++ [cb]).

(** [makeConnection(port)]: [net.connect({port, allowHalfOpen: true}, ...)]. *)
Definition makeConnection (c : connectData) (p : portValue) : state → state :=
  emit (MakeConnection c p).

Definition hostname_of (c : connectData) : string :=
  hostname_of_url (url (req c)).

Section WithPorts.

(** [httpsServer.address()['port']] of the [lid]-th listener: the
    ephemeral port the operating system bound it to. *)
Variable addressPort : nat → Z.

(** The function passed to [sem.take]. *)
Definition acquire (c : connectData) (st : state) : state :=
  let hostname := hostname_of c in
  let wildcard := wildcardHost hostname in
  match sslServers st !! hostname with
  | Some e =>
      makeConnection c (port e) (schedule (Leave wildcard) st)
  | None =>
      match sslServers st !! wildcard with
      | Some w =>
          let alias := SslServer None None (PortObject w) in
          makeConnection c (port alias)
            (set_sslServers <[hostname := alias]> (schedule (Leave wildcard) st))
      | None =>
          let lid := created st in
          schedule (Listening c lid)
            (emit (CreateServer lid hostname)
               {| sslServers := sslServers st; sslSemaphores := sslSemaphores st;
                  httpPort := httpPort st; created := S lid;
                  scheduled := scheduled st; effects := effects st |})
      end
  end.

(** The callback of [httpsServer.listen]. *)
Definition listening (c : connectData) (lid : nat) (st : state) : state :=
  let hostname := hostname_of c in
  let entry := SslServer (Some lid) (Some lid) (PortNumber (addressPort lid)) in
  makeConnection c (port entry)
    (schedule (Leave (wildcardHost hostname))
       (set_sslServers <[hostname := entry]> st)).

(** [sem.take(task)] on [this.sslSemaphores[wildcard]], created with
    [semaphore(1)] when absent.  As the package has it, the task runs
    at once if a slot is free, and waits in the queue otherwise. *)
Definition take (wildcard : string) (c : connectData) (st : state) : state :=
  let sem := default (Semaphore 1 0 []) (sslSemaphores st !! wildcard) in
  if decide (current sem + 1 > capacity sem)%Z then
    set_sslSemaphores
      <[wildcard := Semaphore (capacity sem) (current sem) (queue sem ++ [c])]> st
  else
    acquire c
      (set_sslSemaphores
         <[wildcard := Semaphore (capacity sem) (current sem + 1) (queue sem)]> st).

(** [sem.leave()]: the slot is given back; the first waiting task, if
    it fits, takes it and is deferred with [nextTick].  Leaving a
    semaphore nobody holds throws.  A [Leave] is always bound to an
    existing semaphore, so the first case does not arise. *)
Definition leave (wildcard : string) (st : state) : state :=
  match sslSemaphores st !! wildcard with
  | None => st
  | Some sem =>
      let cur := (current sem - 1)%Z in
      match queue sem with
      | [] =>
          let st' := set_sslSemaphores
                       <[wildcard := Semaphore (capacity sem) cur []]> st in
          if decide (cur < 0)%Z then emit (ThrowError "leave called too many times.") st'
          else st'
      | item :: rest =>
          if decide (1 + cur > capacity sem)%Z then
            set_sslSemaphores
              <[wildcard := Semaphore (capacity sem) cur (item :: rest)]> st
          else
            schedule (Taken item)
              (set_sslSemaphores
                 <[wildcard := Semaphore (capacity sem) (cur + 1) rest]> st)
      end
  end.

(** [head[0] == 0x16 || head[0] == 0x80 || head[0] == 0x00]; an absent
    byte ([undefined]) equals none of them. *)
Definition looks_like_tls (b : option byte) : bool :=
  match b with
  | Some b => Byte.eqb b x16 || Byte.eqb b x80 || Byte.eqb b x00
  | None => false
  end.

(** [_onHttpServerConnectData(req, socket, head)]. *)
Definition onHttpServerConnectData (c : connectData) (st : state) : state :=
  if looks_like_tls (head c !! 0%nat) then
    let hostname := hostname_of c in
    match sslServers st !! hostname with
    | Some e => makeConnection c (port e) st
    | None => take (wildcardHost hostname) c st
    end
  else makeConnection c (PortNumber (httpPort st)) st.

Definition run_callback (cb : callback) : state → state :=
  match cb with
  | Leave wildcard => leave wildcard
  | Taken c => acquire c
  | Listening c lid => listening c lid
  end.

(** One turn of the event loop: the first data of a CONNECT arrives, or
    one of the scheduled callbacks runs (in any order). *)
Inductive event : Type :=
  | Connect (c : connectData)
  | Run (i : nat).

Definition step (st : state) (ev : event) : state :=
  match ev with
  | Connect c => onHttpServerConnectData c st
  | Run i =>
      match scheduled st !! i with
      | Some cb => run_callback cb (set_scheduled (delete i) st)
      | None => st
      end
  end.

Definition run (evs : list event) (st : state) : state :=
  foldl step st evs.

End WithPorts.


(** A TLS CONNECT for [hostname]. *)
Definition tls_for (hostname : string) (c : connectData) : bool :=
  looks_like_tls (head c !! 0%nat) && bool_decide (hostname_of c = hostname).

(** How many elements of a list satisfy a test. *)
Fixpoint count {A : Type} (f : A → bool) (l : list A) : nat :=
  match l with
  | [] => 0
  | x :: l' => (if f x then 1 else 0) + count f l'
  end.

Definition creates_for (hostname : string) (e : effect) : bool :=
  match e with
  | CreateServer _ h => bool_decide (h = hostname)
  | _ => false
  end.


Definition connects_for (hostname : string) (e : effect) : bool :=
  match e with
  | MakeConnection c _ => tls_for hostname c
  | _ => false
  end.


(** TLS CONNECTs to [hostname] among the events. *)
Definition connects_seen (hostname : string) (evs : list event) : nat :=
  count (λ ev, match ev with
               | Connect c => tls_for hostname c
               | Run _ => false
               end) evs.

(** *** What holds of every reachable state *)

(** The semaphore slot a scheduled callback holds: a granted task
    holds it until its [Leave] has run. *)
Definition slot_of (cb : callback) : string :=
  match cb with
  | Leave w => w
  | Taken c | Listening c _ => wildcardHost (hostname_of c)
  end.

Definition holds (w : string) (cb : callback) : bool :=
  bool_decide (slot_of cb = w).

Definition task_of (cb : callback) : option connectData :=
  match cb with
  | Leave _ => None
  | Taken c | Listening c _ => Some c
  end.

(** The callback will open a tunnel for a TLS CONNECT to [hostname]. *)
Definition serves (hostname : string) (cb : callback) : bool :=
  match task_of cb with
  | Some c => tls_for hostname c
  | None => false
  end.

(** The callback belongs to a listener being started for [hostname]. *)
Definition listens_for (hostname : string) (cb : callback) : bool :=
  match cb with
  | Listening c _ => bool_decide (hostname_of c = hostname)
  | _ => false
  end.

Definition is_tls (c : connectData) : Prop :=
  looks_like_tls (head c !! 0%nat) = true.

Definition queue_at (w : string) (sems : gmap string semaphore) : list connectData :=
  match sems !! w with
  | Some sem => queue sem
  | None => []
  end.

(** The entry owns a listener. *)
Definition owned (e : option sslServer) : bool :=
  match e with
  | Some (SslServer (Some _) _ _) => true
  | _ => false
  end.

Section Invariant.

Variable addressPort : nat → Z.

(** [seen h] is the number of TLS CONNECTs to [h] so far, [sched] the
    callbacks not yet finished. *)
Record Inv (seen : string → nat) (sched : list callback)
    (pool : gmap string sslServer) (sems : gmap string semaphore)
    (effs : list effect) : Prop := {
  inv_sem : ∀ w sem, sems !! w = Some sem →
    capacity sem = 1%Z ∧
    current sem = Z.of_nat (count (holds w) sched) ∧
    (count (holds w) sched ≤ 1)%nat ∧
    (queue sem ≠ [] → count (holds w) sched = 1%nat) ∧
    Forall (λ c, wildcardHost (hostname_of c) = w ∧ is_tls c) (queue sem);
  inv_nosem : ∀ w, sems !! w = None → count (holds w) sched = 0%nat;
  inv_tasks : Forall (λ cb, ∀ c, task_of cb = Some c → is_tls c) sched;
  inv_created : ∀ h,
    count (creates_for h) effs
    = ((if owned (pool !! h) then 1 else 0) + count (listens_for h) sched)%nat;
  inv_listen : ∀ h, is_Some (pool !! h) → count (listens_for h) sched = 0%nat;
  inv_seen : ∀ h,
    seen h = (count (connects_for h) effs + count (serves h) sched
              + count (tls_for h) (queue_at (wildcardHost h) sems))%nat;
  inv_tunnel : ∀ c pv, MakeConnection c pv ∈ effs → is_tls c →
    ∃ e, pool !! hostname_of c = Some e ∧ port e = pv;
  inv_entry : ∀ h e, pool !! h = Some e →
    (∃ lid, e = SslServer (Some lid) (Some lid) (PortNumber (addressPort lid))) ∨
    (owned (Some e) = false ∧ wildcardHost h ≠ h ∧ is_Some (pool !! wildcardHost h));
  inv_used : ∀ h, is_Some (pool !! h) → (0 < count (connects_for h) effs)%nat;
  inv_throw : ∀ m, ThrowError m ∉ effs
}.

Definition invariant (evs : list event) (st : state) : Prop :=
  Inv (λ h, connects_seen h evs) (scheduled st)
      (sslServers st) (sslSemaphores st) (effects st).

End Invariant.

(** *** A measure of the work still to do *)






End Pool.

(** ** The CONNECT registry *)

Module Tunnel.
Import Pool.

(** The two port numbers of a TCP socket. *)
Record socket : Type := Socket {
  localPort : N;
  remotePort : N
}.

(** The socket the inner listener accepts for a connection opened by
    [conn]: the same connection seen from the other end. *)
Definition accepted (conn : socket) : socket :=
  {| localPort := remotePort conn; remotePort := localPort conn |}.

(** [a + ':' + b] on two numbers. *)
Definition port_pair (a b : N) : string :=
  (pretty a ++ ":" ++ pretty b)%string.

(** What the tunnel does, oldest first. *)
Inductive action : Type :=
  | OnFinish                       (* conn.on('finish', () => socket.destroy()) *)
  | PipeSocketToConn               (* socket.pipe(conn) *)
  | PipeConnToSocket               (* conn.pipe(socket) *)
  | EmitData (head : list byte)    (* socket.emit('data', head) *)
  | OnEnd (connectKey : string)    (* conn.on('end', ...) *)
  | Resume                         (* socket.resume() *).

Record state : Type := State {
  connectRequests : gmap string request;
  actions : list action
}.

Definition act (a : action) (st : state) : state :=
  {| connectRequests := connectRequests st; actions := actions st ++ [a] |}.

Definition register (connectKey : string) (r : request) (st : state) : state :=
  {| connectRequests := <[connectKey := r]> (connectRequests st);
     actions := actions st |}.

(** The callback of [net.connect] in [makeConnection], statement by
    statement. *)
Definition onConnected (c : connectData) (conn : socket) (st : state) : state :=
  let st := act OnFinish st in
  let connectKey := port_pair (localPort conn) (remotePort conn) in
  let st := register connectKey (req c) st in
  let st := act PipeSocketToConn st in
  let st := act PipeConnToSocket st in
  let st := act (EmitData (head c)) st in
  let st := act (OnEnd connectKey) st in
  act Resume st.

(** The handler of [conn]'s ['end'] event. *)
Definition onConnEnd (conn : socket) (st : state) : state :=
  {| connectRequests :=
       delete (port_pair (localPort conn) (remotePort conn)) (connectRequests st);
     actions := actions st |}.

(** [ctx.rawRequest] in [_onHttpServerRequest]: the registry entry of
    the request's socket, or the request itself. *)
Definition rawRequest (st : state) (r : request) (s : socket) : request :=
  default r (connectRequests st !! port_pair (remotePort s) (localPort s)).

End Tunnel.

(** ** Shutdown *)

Module Shutdown.
Import Pool.

Inductive listener : Type :=
  | Outer                 (* the http.Server of listen() *)
  | Legacy                (* this.httpsServer *)
  | Inner (lid : nat)     (* a listener of the pool *).

(** The fields of the proxy object that [close] reads; [None] is a
    deleted (or never assigned) property. *)
Record vanessa : Type := Vanessa {
  httpServer : option listener;
  httpsServer : option listener;
  sslServers : option (gmap string sslServer)
}.

Inductive outcome : Type :=
  | Returned
  | TypeError             (* a property read on undefined *).

(** The body of the [forEach] over [Object.keys(this.sslServers)]. *)
Definition close_entry (kv : string * sslServer)
    (acc : gmap string sslServer * list listener) : gmap string sslServer * list listener :=
  let closed := match server kv.2 with
                | Some lid => acc.2 ++ [Inner lid]
                | None => acc.2
                end in
  (delete kv.1 acc.1, closed).

(** [close()]: the outcome, the object afterwards and the listeners
    whose [close] method was called.  The pool's listeners are closed in
    the order of [Object.keys]; here they come in the order in which the
    map lists its keys. *)
Definition close (v : vanessa) : outcome * vanessa * list listener :=
  match httpServer v with
  | None => (TypeError, v, [])
  | Some outer =>
      let closed := [outer] in
      let '(https, pool, closed) :=
        match httpsServer v with
        | Some l => (None, None, closed ++ [l])
        | None => (httpsServer v, sslServers v, closed)
        end in
      match pool with
      | Some servers =>
          let '(servers', closed') :=
            foldl (λ acc kv, close_entry kv acc) (servers, closed) (map_to_list servers) in
          (Returned, Vanessa None https (Some servers'), closed')
      | None => (Returned, Vanessa None https None, closed)
      end
  end.

End Shutdown.

(** ** The system-proxy resolver *)

Module ClientProxy.

Definition newline : ascii := "010"%char.

(** White space removed by [trim] (the ASCII part of it). *)
Definition is_space (c : ascii) : bool :=
  let n := N_of_ascii c in
  bool_decide (n = 32 ∨ (9 ≤ n ∧ n ≤ 13))%N.

Fixpoint trim_start (s : string) : string :=
  match s with
  | EmptyString => EmptyString
  | String c rest => if is_space c then trim_start rest else s
  end.

Fixpoint trim_end (s : string) : string :=
  match s with
  | EmptyString => EmptyString
  | String c rest =>
      match trim_end rest with
      | EmptyString => if is_space c then EmptyString else String c EmptyString
      | rest' => String c rest'
      end
  end.

Definition trim (s : string) : string := trim_end (trim_start s).

(** [s.split('\n')]. *)
Fixpoint lines (s : string) : list string :=
  match s with
  | EmptyString => [EmptyString]
  | String c rest =>
      if decide (c = newline) then EmptyString :: lines rest
      else match lines rest with
           | l :: ls => String c l :: ls
           | [] => [String c EmptyString]
           end
  end.

(** [l.slice(1, -1)]: without the first and the last element. *)
Definition slice_1_m1 {A : Type} (l : list A) : list A :=
  removelast (tail l).

(** The first occurrence of [sep] in [s]: what is before and after it. *)
Fixpoint cut (sep s : string) : option (string * string) :=
  if String.prefix sep s then
    Some (EmptyString, String.substring (String.length sep) (String.length s - String.length sep) s)
  else
    match s with
    | EmptyString => None
    | String c rest =>
        match cut sep rest with
        | Some (before, after) => Some (String c before, after)
        | None => None
        end
    end.

(** [let [key, value] = k.split(' : ')]: the first two pieces. *)
Definition key_value (k : string) : string * option string :=
  match cut " : " k with
  | None => (k, None)
  | Some (key, after) =>
      match cut " : " after with
      | None => (key, Some after)
      | Some (value, _) => (key, Some value)
      end
  end.

(** The [forEach] over the lines of the dictionary; [value.trim()]
    throws on a line without [" : "], which ends the loop (the
    exception is caught around it). *)
Fixpoint read_settings (ls : list string) (res : gmap string string) : gmap string string :=
  match ls with
  | [] => res
  | k :: rest =>
      match key_value k with
      | (key, Some value) => read_settings rest (<[trim key := trim value]> res)
      | (_, None) => res
      end
  end.

(** The [try] block: [output] is what [scutil --proxy] printed, [None]
    when running it failed. *)
Definition scutil_settings (output : option string) : gmap string string :=
  match output with
  | Some out => read_settings (slice_1_m1 (lines (trim out))) ∅
  | None => ∅
  end.

Record proxyConfig : Type := ProxyConfig {
  http : option string;
  https : option string;
  socks : option string;
  pac : option string
}.

Definition truthy (v : option string) : bool :=
  match v with
  | Some s => negb (bool_decide (s = ""))
  | None => false
  end.

(** [a || b]. *)
Definition or_else (a b : option string) : option string :=
  if truthy a then a else b.

(** A value in a string concatenation; [undefined] prints as such. *)
Definition to_string (v : option string) : string :=
  default "undefined" v.

(** The second half of [getSystemProxy]: the fields read from the
    parsed settings [res] and from [process.env]. *)
Definition resolve (res env : gmap string string) : proxyConfig :=
  let HTTPProxy := res !! "HTTPProxy" in
  let HTTPPort := res !! "HTTPPort" in
  let HTTPSProxy := res !! "HTTPSProxy" in
  let HTTPSPort := res !! "HTTPSPort" in
  let SOCKSProxy := res !! "SOCKSProxy" in
  let SOCKSPort := res !! "SOCKSPort" in
  let pac := res !! "ProxyAutoConfigURLString" in
  {| http := if truthy HTTPProxy
             then Some ("http://" ++ to_string HTTPProxy ++ ":" ++ to_string HTTPPort)%string
             else or_else (env !! "HTTP_PROXY") (env !! "http_proxy");
     https := if truthy HTTPSProxy
              then Some ("https://" ++ to_string HTTPSProxy ++ ":" ++ to_string HTTPSPort)%string
              else or_else (env !! "HTTPS_PROXY") (env !! "https_proxy");
     socks := if truthy SOCKSProxy
              then Some ("socks://" ++ to_string SOCKSProxy ++ ":" ++ to_string SOCKSPort)%string
              else or_else (env !! "ALL_PROXY") (env !! "all_proxy");
     pac := if truthy pac then pac else None |}.

Definition getSystemProxy (output : option string) (env : gmap string string) : proxyConfig :=
  resolve (scutil_settings output) env.

(** How one of the fields [http], [https], [socks] is obtained: from
    the operating system's proxy host and port when a host is set;
    otherwise from the upper-case environment variable when it is
    non-empty; otherwise from the lower-case one. *)
Definition os_then_env (res env : gmap string string)
    (scheme proxyKey portKey upper lower : string) (field : option string) : Prop :=
  (∀ host, res !! proxyKey = Some host → host ≠ "" →
     field = Some (scheme ++ host ++ ":" ++ to_string (res !! portKey))%string) ∧
  (truthy (res !! proxyKey) = false →
     ∀ v, env !! upper = Some v → v ≠ "" → field = Some v) ∧
  (truthy (res !! proxyKey) = false → truthy (env !! upper) = false →
     field = env !! lower).

(** Upper-case letters to lower case, for comparing names without
    regard to case. *)
Definition lower (c : ascii) : ascii :=
  let n := N_of_ascii c in
  if bool_decide (65 ≤ n ∧ n ≤ 90)%N then ascii_of_N (n + 32) else c.

Fixpoint lowercase (s : string) : string :=
  match s with
  | EmptyString => EmptyString
  | String c rest => String (lower c) (lowercase rest)
  end.

(** A variable of the environment is set under [name] in some
    spelling, with a non-empty value. *)
Definition set_ignoring_case (env : gmap string string) (name value : string) : Prop :=
  ∃ k, lowercase k = lowercase name ∧ env !! k = Some value ∧ value ≠ "".

(** A necessary condition for an absolute URL: it has a scheme, so it
    has a colon. *)
Definition has_scheme (s : string) : bool := Hostname.has_colon s.

End ClientProxy.

(** ** The upstream agent selector *)

Module ServerProxy.
Import ClientProxy.

Inductive agent : Type :=
  | PACAgent (uri : string)      (* with the patched callback *)
  | SOCKSAgent (uri : string)
  | HTTPSAgent (uri : string)
  | HTTPAgent (uri : string)
  | HttpsDirect                  (* new https.Agent() *)
  | HttpDirect                   (* new http.Agent() *).

Record summaryProxy : Type := SummaryProxy {
  type : string;
  address : string
}.

Record context : Type := Context {
  protocol : string;
  hostname : string;
  proxy : proxyConfig;
  summary_proxy : option summaryProxy;       (* ctx.summary.proxy *)
  requestOptions_agent : option agent        (* ctx.requestOptions.agent *)
}.

(** A string property used as a condition: its value when it is true,
    that is neither [undefined] nor the empty string. *)
Definition if_set (v : option string) : option string :=
  if truthy v then v else None.

Definition chosen (ctx : context) (a : option agent) (s : option summaryProxy) : context :=
  {| protocol := protocol ctx; hostname := hostname ctx; proxy := proxy ctx;
     summary_proxy := match s with Some _ => s | None => summary_proxy ctx end;
     requestOptions_agent := a |}.

(** [serverProxyMiddleware], up to [await next()]. *)
Definition serverProxyMiddleware (ctx : context) : context :=
  match if_set (pac (proxy ctx)) with
  | Some uri => chosen ctx (Some (PACAgent uri)) (Some (SummaryProxy "PAC" uri))
  | None =>
  match if_set (socks (proxy ctx)) with
  | Some uri => chosen ctx (Some (SOCKSAgent uri)) (Some (SummaryProxy "SOCKS" uri))
  | None =>
  if decide (protocol ctx = "https") then
    match if_set (https (proxy ctx)) with
    | Some uri => chosen ctx (Some (HTTPSAgent uri)) (Some (SummaryProxy "HTTPS" uri))
    | None => chosen ctx (Some HttpsDirect) None
    end
  else if decide (protocol ctx = "http") then
    match if_set (http (proxy ctx)) with
    | Some uri => chosen ctx (Some (HTTPAgent uri)) (Some (SummaryProxy "HTTP" uri))
    | None => chosen ctx (Some HttpDirect) None
    end
  else chosen ctx None None
  end end.

(** Values of an options object. *)
Inductive optionValue : Type :=
  | OString (s : string)
  | ONumber (n : Z)
  | OBoolean (b : bool).

(** [Object.assign(opts || {}, { servername: ctx.hostname })]. *)
Definition with_servername (ctx : context) (opts : option (gmap string optionValue)) :
    gmap string optionValue :=
  <["servername" := OString (hostname ctx)]> (default ∅ opts).

(** The callback installed on the PAC agent; [connect] is the agent's
    own callback, bound to it. *)
Definition pac_callback {R F Res : Type}
    (connect : R → gmap string optionValue → F → Res)
    (ctx : context) (r : R) (opts : option (gmap string optionValue)) (fn : F) : Res :=
  connect r (with_servername ctx opts) fn.

End ServerProxy.

(** ** The WebSocket bridge: close propagation *)

Module WebSocketBridge.

Inductive readyState : Type := CONNECTING | OPEN | CLOSING | CLOSED.

Global Instance readyState_eq_dec : EqDecision readyState.
Proof. solve_decision. Defined.

Record wsContext : Type := WsContext {
  closedByServer : option bool;
  closedByClient : option bool;
  clientToProxyWebSocket : readyState;
  proxyToServerWebSocket : readyState
}.

(** Calls of [close(code, message)] on one of the two sockets. *)
Inductive closeCall : Type :=
  | CloseProxyToServer (code : Z) (message : string)
  | CloseClientToProxy (code : Z) (message : string).

(** A flag as a condition: [undefined] and [false] are false. *)
Definition flag (v : option bool) : bool := default false v.

(** [close(code, message)] on an open socket starts its closing
    handshake. *)
Definition closing_proxyToServer (ctx : wsContext) : wsContext :=
  {| closedByServer := closedByServer ctx; closedByClient := closedByClient ctx;
     clientToProxyWebSocket := clientToProxyWebSocket ctx;
     proxyToServerWebSocket := CLOSING |}.

Definition closing_clientToProxy (ctx : wsContext) : wsContext :=
  {| closedByServer := closedByServer ctx; closedByClient := closedByClient ctx;
     clientToProxyWebSocket := CLOSING;
     proxyToServerWebSocket := proxyToServerWebSocket ctx |}.

(** [_onWebSocketClose(ctx, closedByServer, code, message)]. *)
Definition onWebSocketClose (ctx : wsContext) (byServer : bool) (code : Z) (message : string) :
    wsContext * list closeCall :=
  if negb (flag (closedByServer ctx)) && negb (flag (closedByClient ctx)) then
    let ctx := {| closedByServer := Some byServer;
                  closedByClient := Some (negb byServer);
                  clientToProxyWebSocket := clientToProxyWebSocket ctx;
                  proxyToServerWebSocket := proxyToServerWebSocket ctx |} in
    let code := if bool_decide (code >= 1004)%Z && bool_decide (code <= 1006)%Z
                then 1001%Z else code in
    if bool_decide (clientToProxyWebSocket ctx ≠ proxyToServerWebSocket ctx) then
      if bool_decide (clientToProxyWebSocket ctx = CLOSED)
         && bool_decide (proxyToServerWebSocket ctx = OPEN) then
        (closing_proxyToServer ctx, [CloseProxyToServer code message])
      else if bool_decide (proxyToServerWebSocket ctx = CLOSED)
              && bool_decide (clientToProxyWebSocket ctx = OPEN) then
        (closing_clientToProxy ctx, [CloseClientToProxy code message])
      else (ctx, [])
    else (ctx, [])
  else (ctx, []).

End WebSocketBridge.

(** ** Inputs used in the examples *)

Module Samples.

(** The [lid]-th ephemeral port. *)
Definition addressPort (lid : nat) : Z := (40000 + Z.of_nat lid)%Z.

(** A CONNECT to [target] whose first bytes are a TLS handshake record. *)
Definition tls_connect (target : string) : Pool.connectData :=
  Pool.ConnectData (Pool.Request target "10.0.0.1") [x16; x03; x01].



(** Two concurrent TLS CONNECTs to two hostnames of one wildcard class,
    then every callback. *)
Definition burst_two_hosts : list Pool.event :=
  [Pool.Connect (tls_connect "a.example.com:443");
   Pool.Connect (tls_connect "b.example.com:443");
   Pool.Run 0; Pool.Run 0; Pool.Run 0; Pool.Run 0; Pool.Run 0].

(** A TLS CONNECT to the wildcard name itself, worked off. *)
Definition wildcard_served : Pool.state :=
  Pool.run addressPort
    [Pool.Connect (tls_connect "*.example.com:443"); Pool.Run 0; Pool.Run 0]
    (Pool.listen 8080).

(** The entry that [wildcard_served] holds under [*.example.com]. *)
Definition wildcard_entry : Pool.sslServer :=
  Pool.SslServer (Some 0%nat) (Some 0%nat) (Pool.PortNumber 40000).

(** A started proxy with one owned listener and one alias in its pool. *)
Definition listening_proxy : Shutdown.vanessa :=
  Shutdown.Vanessa (Some Shutdown.Outer) None
    (Some (<["a.example.com" := Pool.SslServer (Some 0%nat) (Some 0%nat) (Pool.PortNumber 40000)]>
          (<["b.example.com" := Pool.SslServer None None (Pool.PortNumber 40000)]> ∅))).

(** An https request with every upstream configured. *)
Definition all_upstreams : ServerProxy.context :=
  ServerProxy.Context "https" "example.com"
    (ClientProxy.ProxyConfig (Some "http://up:3128") (Some "https://ups:3129")
       (Some "socks://s:1080") (Some "http://wpad/proxy.pac"))
    None None.

(** The server side has closed, the client side is open, no close has
    been recorded. *)
Definition server_gone : WebSocketBridge.wsContext :=
  WebSocketBridge.WsContext None None WebSocketBridge.OPEN WebSocketBridge.CLOSED.

Definition mixed_case_env : gmap string string :=
  {["Http_Proxy" := "http://up:3128"]}.

Definition bare_host_env : gmap string string :=
  {["HTTP_PROXY" := "proxyhost"]}.

End Samples.

(** ** More observations on the pool *)

Module PoolLog.
Import Hostname Pool.

(** [has_star s]: some character of [s] is an asterisk. *)
Fixpoint has_star (s : string) : bool :=
  match s with
  | EmptyString => false
  | String c rest => if decide (c = "*"%char) then true else has_star rest
  end.

(** The listener an entry owns together with the hostname it is stored
    under has been created for that hostname. *)
Definition created_for (effs : list effect) (h : string) (e : sslServer) : Prop :=
  ∀ lid, server e = Some lid → CreateServer lid h ∈ effs.

(** Listener ids are handed out once: what has been created is below
    the counter and belongs to one hostname; what is being bound or is
    installed has been created for its hostname. *)
Record Fresh (st : state) : Prop := {
  fresh_below : ∀ lid h, CreateServer lid h ∈ effects st → (lid < created st)%nat;
  fresh_once : ∀ lid h h',
    CreateServer lid h ∈ effects st → CreateServer lid h' ∈ effects st → h = h';
  fresh_binding : ∀ c lid,
    Listening c lid ∈ scheduled st → CreateServer lid (hostname_of c) ∈ effects st;
  fresh_installed : ∀ h e, sslServers st !! h = Some e → created_for (effects st) h e
}.


End PoolLog.

(** ** Request intake and the middleware around the selector *)

Module Intake.
Import Pool.

(** What [_onHttpServerRequest] fixes on the context of a request. *)
Record intake : Type := Intake {
  rawRequest : request;
  protocol : string;
  ip : string
}.

(** [_onHttpServerRequest(isSSL, req, res)], bound with [isSSL = false]
    on the plain listener and [true] on the listeners of the pool. *)
Definition onHttpServerRequest (isSSL : bool) (st : Tunnel.state)
    (r : request) (s : Tunnel.socket) : intake :=
  let raw := Tunnel.rawRequest st r s in
  {| rawRequest := raw;
     protocol := if isSSL then "https" else "http";
     ip := remoteAddress raw |}.


End Intake.

(** ** What a shutdown closes *)

Module ShutdownLog.
Import Pool.

(** The listener an entry of the pool owns, if it owns one. *)
Definition owned_listener (kv : string * sslServer) : option Shutdown.listener :=
  Shutdown.Inner <$> server kv.2.

(** The proxy object of a running dispatcher, as [close] sees it. *)
Definition vanessa_of (st : state) : Shutdown.vanessa :=
  Shutdown.Vanessa (Some Shutdown.Outer) None (Some (sslServers st)).

(** The dispatcher after [close()] has run on it: [close] touches the
    pool only. *)
Definition after_close (st : state) : state :=
  set_sslServers
    (λ _, default ∅ (Shutdown.sslServers (Shutdown.close (vanessa_of st)).1.2)) st.

End ShutdownLog.

(** ** White space *)

Module Text.
Import ClientProxy.



End Text.

(** ** The rule endpoints *)

Module Rules.
Import ClientProxy.

(** Calls into the rule store and the body reader, which live in other
    files: only the calls and their arguments are recorded. *)
Inductive call : Type :=
  | ReadBody                              (* toString(ctx.req) *)
  | SetRule (name content : string)       (* setRule(name, content) *)
  | RemoveRule (name : string)            (* removeRule(name) *).

Inductive outcome : Type :=
  | Thrown (status : Z)                   (* ctx.throw(status) *)
  | Replied (body : string)               (* ctx.body = body *).



End Rules.

(** ** The WebSocket bridge: frames, errors, the upstream handshake *)

Module WebSocketFrames.
Import WebSocketBridge.

(** What the bridge calls on one of the two sockets; [toServer] tells
    which one ([proxyToServerWebSocket] or [clientToProxyWebSocket]). *)
Inductive call (Data Flags : Type) : Type :=
  | Send (toServer : bool) (data : Data) (flags : Flags)   (* send(data, flags) *)
  | Ping (toServer : bool) (data : Data)                   (* ping(data, false) *)
  | Pong (toServer : bool) (data : Data)                   (* pong(data, false) *)
  | Close (toServer : bool)                                (* close() *).

Arguments Send {Data Flags}.
Arguments Ping {Data Flags}.
Arguments Pong {Data Flags}.
Arguments Close {Data Flags}.

(** [_onWebSocketError(ctx)]; [server] is [None] while
    [ctx.proxyToServerWebSocket] is still [null]. *)
Definition onWebSocketError {Data Flags : Type}
    (client : readyState) (server : option readyState) : list (call Data Flags) :=
  match server with
  | None => []
  | Some server =>
      if bool_decide (client ≠ server) then
        if bool_decide (client = CLOSED) && bool_decide (server = OPEN) then [Close true]
        else if bool_decide (server = CLOSED) && bool_decide (client = OPEN) then [Close false]
        else []
      else []
  end.

(** [_onWebSocketFrame(ctx, type, fromServer, data, flags)]. *)
Definition onWebSocketFrame {Data Flags : Type}
    (ctx : wsContext) (type : string) (fromServer : bool) (data : Data) (flags : Flags) :
    list (call Data Flags) :=
  let dest := if fromServer then clientToProxyWebSocket ctx else proxyToServerWebSocket ctx in
  if bool_decide (dest = OPEN) then
    if decide (type = "message") then [Send (negb fromServer) data flags]
    else if decide (type = "ping") then [Ping (negb fromServer) data]
    else if decide (type = "pong") then [Pong (negb fromServer) data]
    else []
  else
    onWebSocketError (clientToProxyWebSocket ctx) (Some (proxyToServerWebSocket ctx)).

(** The call transmits a frame. *)
Definition transmits {Data Flags : Type} (c : call Data Flags) : option bool :=
  match c with
  | Send toServer _ _ | Ping toServer _ | Pong toServer _ => Some toServer
  | Close _ => None
  end.

(** The loop that copies the upgrade request's headers:
    [if (key.indexOf('sec-websocket') !== 0) ptosHeaders[key] = ...]. *)
Definition ptosHeaders (ctopHeaders : gmap string string) : gmap string string :=
  map_fold (λ key value ptos,
              if String.prefix "sec-websocket" key then ptos
              else <[key := value]> ptos)
           ∅ ctopHeaders.

(** The close events of one bridge, one after the other: the calls they
    make, in order. *)
Fixpoint close_events (ctx : wsContext) (evs : list (bool * Z * string)) : list closeCall :=
  match evs with
  | [] => []
  | (byServer, code, message) :: rest =>
      let '(ctx', calls) := onWebSocketClose ctx byServer code message in
      calls ++ close_events ctx' rest
  end.

End WebSocketFrames.

(** ** Host and port of a request *)

Module HostPort.

(** [s.split(':')]. *)
Fixpoint split_colon (s : string) : list string :=
  match s with
  | EmptyString => [EmptyString]
  | String c rest =>
      if decide (c = ":"%char) then EmptyString :: split_colon rest
      else match split_colon rest with
           | piece :: pieces => String c piece :: pieces
           | [] => [String c EmptyString]
           end
  end.

(** The number of colons in [s]. *)
Fixpoint colons (s : string) : nat :=
  match s with
  | EmptyString => 0
  | String c rest => (if decide (c = ":"%char) then 1 else 0) + colons rest
  end.




(** The fields of [url.parse(...)] that are read; [None] is [null]. *)
Record parsedUrl : Type := ParsedUrl {
  url_hostname : option string;
  url_port : option string;
  url_path : option string
}.

(** The headers and the request target of a request. *)
Record request : Type := Request {
  header_host : option string;
  url : string
}.

Section WithPrimitives.

(** JavaScript numbers, with the conversions the code applies to them:
    unary plus on a string, use as a condition, and concatenation to a
    string. *)
Variable number : Type.
Variable to_number : string → number.
Variable number_truthy : number → bool.
Variable number_to_string : number → string.

(** Node's [url.parse]. *)
Variable url_parse : string → parsedUrl.

Inductive portValue : Type :=
  | Number (n : number)
  | Text (s : string)
  | Null
  | Undefined.

Record hostPort : Type := HostPort {
  host : option string;
  port : portValue
}.

Definition of_parsed (u : parsedUrl) : hostPort :=
  {| host := url_hostname u;
     port := match url_port u with Some p => Text p | None => Null end |}.

(** [Vanessa.parseHost(hostString, defaultPort)]. *)
Definition parseHost (hostString : string) (defaultPort : portValue) : hostPort :=
  if String.prefix "http://" hostString then of_parsed (url_parse hostString)
  else
    let pieces := split_colon hostString in
    {| host := pieces !! 0%nat;
       port := if decide (List.length pieces = 2%nat)
               then Number (to_number (default EmptyString (pieces !! 1%nat)))
               else defaultPort |}.






End WithPrimitives.

Arguments Number {number}.
Arguments Text {number}.
Arguments Null {number}.
Arguments Undefined {number}.

End HostPort.

(** ** Taking in a CONNECT *)

Module ConnectIntake.
Import Pool.

(** The dispatcher together with the client sockets: what has been
    written to each, and the requests whose socket waits, once, for its
    first data. *)
Record state : Type := State {
  pool : Pool.state;
  written : list (nat * string);
  awaiting : gmap nat request
}.

Definition crlf : string := String "013" (String "010" EmptyString).

(** [_onHttpServerConnect(req, socket, head)]; [head] is [None] when
    it is missing. *)
Definition onHttpServerConnect (socket : nat) (r : request) (head : option (list byte))
    (st : state) : state :=
  match head with
  | None | Some [] =>
      {| pool := pool st;
         written := written st ++ [(socket, ("HTTP/1.1 200 OK" ++ crlf)%string); (socket, crlf)];
         awaiting := <[socket := r]> (awaiting st) |}
  | Some head =>
      {| pool := onHttpServerConnectData (ConnectData r head) (pool st);
         written := written st;
         awaiting := awaiting st |}
  end.

(** A ['data'] event on a client socket: the handler registered with
    [once], if there is one, runs and is gone. *)
Definition onData (socket : nat) (chunk : list byte) (st : state) : state :=
  match awaiting st !! socket with
  | Some r =>
      {| pool := onHttpServerConnectData (ConnectData r chunk) (pool st);
         written := written st;
         awaiting := delete socket (awaiting st) |}
  | None => st
  end.

(** Everything written to [socket], in order. *)
Fixpoint written_to (socket : nat) (w : list (nat * string)) : string :=
  match w with
  | [] => EmptyString
  | (s, text) :: rest =>
      if decide (s = socket) then (text ++ written_to socket rest)%string
      else written_to socket rest
  end.

End ConnectIntake.

(** ** More inputs for the examples *)

Module MoreSamples.

(** A TLS CONNECT to [a.example.com], worked off until its entry is
    installed. *)
Definition first_host_served : list Pool.event :=
  [Pool.Connect (Samples.tls_connect "a.example.com:443"); Pool.Run 0].

(** Two loopback connections of the proxy to its inner listeners. *)
Definition first_conn : Tunnel.socket := Tunnel.Socket 51000 40000.
Definition second_conn : Tunnel.socket := Tunnel.Socket 51001 40000.



(** What [scutil --proxy] prints on a machine with a bypass list and
    an HTTP proxy. *)
Definition scutil_with_exceptions : string :=
  let nl := String ClientProxy.newline "" in
  ("<dictionary> {" ++ nl
   ++ "  ExceptionsList : <array> {" ++ nl
   ++ "    0 : *.local" ++ nl
   ++ "    1 : 169.254/16" ++ nl
   ++ "  }" ++ nl
   ++ "  HTTPEnable : 1" ++ nl
   ++ "  HTTPPort : 8080" ++ nl
   ++ "  HTTPProxy : 127.0.0.1" ++ nl
   ++ "}" ++ nl)%string.

(** A stand-in for the conversion of a string to a number: the number
    is written as its text. *)
Definition number_as_text (s : string) : string := s.

(** A stand-in for [url.parse]. *)
Definition nothing_parsed (s : string) : HostPort.parsedUrl :=
  HostPort.ParsedUrl None None None.

(** A TLS CONNECT whose listener is still being bound. *)
Definition listener_being_bound : list Pool.event :=
  [Pool.Connect (Samples.tls_connect "a.example.com:443")].

End MoreSamples.

(* ================================================================== *)
(** * Properties *)

Example wildcard_of_www : Hostname.wildcardHost "www.example.com" = "*.example.com".
Proof. reflexivity. Qed.

Example wildcard_of_localhost : Hostname.wildcardHost "localhost" = "localhost".
Proof. reflexivity. Qed.

Example wildcard_of_wildcard : Hostname.wildcardHost "*.example.com" = "*.example.com".
Proof. reflexivity. Qed.

Example wildcard_leading_dot : Hostname.wildcardHost ".a.b" = ".*.b".
Proof. reflexivity. Qed.

Example hostname_of_connect_target : Hostname.hostname_of_url "a.example.com:443" = "a.example.com".
Proof. reflexivity. Qed.

Section HostnameFacts.
Import Hostname.

Lemma end_of_label_no_dot (s : string) :
  has_dot s = false → end_of_label s = None.
Proof.
  induction s as [|c s IH]; simpl; [done|].
  destruct (decide (c = "."%char)); [done | exact IH].
Qed.

Lemma wildcardHost_no_dot (s : string) :
  has_dot s = false → wildcardHost s = s.
Proof.
  destruct s as [|c s]; simpl; [done|].
  destruct (decide (c = "."%char)); [done|].
  intros H. by rewrite (end_of_label_no_dot s H).
Qed.

Lemma has_dot_wildcardHost (s : string) :
  has_dot (wildcardHost s) = has_dot s.
Proof.
  destruct s as [|c s]; simpl; [done|].
  destruct (decide (c = "."%char)) as [->|Hc]; [done|].
  destruct (end_of_label s) as [tail|] eqn:E; simpl.
  - destruct (decide (c = "."%char)); [done|].
    clear Hc n. induction s as [|d s IH]; simpl in *; [done|].
    destruct (decide (d = "."%char)); [done | auto].
  - destruct (decide (c = "."%char)); done.
Qed.

End HostnameFacts.

(** C10. A hostname without a dot is its own wildcard key: the regular
    expression finds no label to replace, so the semaphore key is the
    hostname itself; no other hostname has that key; and a task for
    such a hostname that finds no entry never installs an alias to
    another entry, it starts the hostname's own listener. *)
Theorem dotless_hostname_is_its_own_wildcard (hostname : string) :
  Hostname.has_dot hostname = false →
  Hostname.wildcardHost hostname = hostname ∧
  (∀ other, Hostname.wildcardHost other = hostname → other = hostname) ∧
  (∀ c st, Pool.hostname_of c = hostname → Pool.sslServers st !! hostname = None →
     Pool.sslServers (Pool.acquire c st) = Pool.sslServers st ∧
     Pool.effects (Pool.acquire c st)
       = Pool.CreateServer (Pool.created st) hostname :: Pool.effects st).
Proof.
  intros Hdot. split; [by apply wildcardHost_no_dot|]. split.
  - intros other Hw.
    assert (Ho : Hostname.has_dot other = false).
    { rewrite <- has_dot_wildcardHost, Hw. exact Hdot. }
    rewrite <- Hw. symmetry. by apply wildcardHost_no_dot.
  - intros c st Hc Hnone. unfold Pool.acquire.
    rewrite Hc, (wildcardHost_no_dot hostname Hdot), Hnone. done.
Qed.

Lemma dotless_hostname_is_its_own_wildcard_witness :
  Hostname.wildcardHost "localhost" = "localhost" ∧
  (∀ other, Hostname.wildcardHost other = "localhost" → other = "localhost") ∧
  (∀ c st, Pool.hostname_of c = "localhost" → Pool.sslServers st !! "localhost" = None →
     Pool.sslServers (Pool.acquire c st) = Pool.sslServers st ∧
     Pool.effects (Pool.acquire c st)
       = Pool.CreateServer (Pool.created st) "localhost" :: Pool.effects st).
Proof. apply (dotless_hostname_is_its_own_wildcard "localhost"). reflexivity. Defined.

(** ** Dispatch on the first preview byte *)

Section Dispatch.
Import Hostname Pool.


End Dispatch.



(** ** The CONNECT registry *)

Section Registry.
Import Hostname Tunnel.

Lemma pretty_N_char_no_colon (x : N) : pretty_N_char x ≠ ":"%char.
Proof. unfold pretty_N_char. by repeat case_match. Qed.

Lemma pretty_N_go_no_colon (x : N) (s : string) :
  has_colon s = false → has_colon (pretty_N_go x s) = false.
Proof.
  revert s. induction (N.lt_wf_0 x) as [x _ IH]; intros s Hs.
  destruct (decide (x = 0)%N) as [->|Hx]; [by rewrite pretty_N_go_0|].
  rewrite pretty_N_go_step by lia. apply IH; [apply N.div_lt; lia|].
  simpl. destruct (decide (pretty_N_char (x `mod` 10) = ":"%char)) as [Hc|_]; [|done].
  by apply pretty_N_char_no_colon in Hc.
Qed.

Lemma pretty_N_no_colon (x : N) : has_colon (pretty x) = false.
Proof.
  unfold pretty, pretty_N. destruct (decide (x = 0)%N); [done|].
  by apply pretty_N_go_no_colon.
Qed.

Lemma colon_separates (s1 s2 t1 t2 : string) :
  has_colon s1 = false → has_colon s2 = false →
  (s1 ++ ":" ++ t1 = s2 ++ ":" ++ t2)%string → s1 = s2 ∧ t1 = t2.
Proof.
  revert s2. induction s1 as [|c s1 IH]; intros [|d s2]; simpl.
  - intros _ _ H. by simplify_eq.
  - destruct (decide (d = ":"%char)); [done|]. intros _ _ H. by simplify_eq.
  - destruct (decide (c = ":"%char)); [done|]. intros _ _ H. by simplify_eq.
  - destruct (decide (c = ":"%char)); [done|].
    destruct (decide (d = ":"%char)); [done|].
    intros H1 H2 H. injection H as -> H. by destruct (IH s2 H1 H2 H) as [-> ->].
Qed.

(** Distinct port pairs have distinct keys. *)
Lemma port_pair_inj (a b a' b' : N) :
  port_pair a b = port_pair a' b' → a = a' ∧ b = b'.
Proof.
  unfold port_pair. intros H.
  apply colon_separates in H as [Ha Hb]; try apply pretty_N_no_colon.
  split; by apply (inj pretty).
Qed.

End Registry.


(** ** Shutdown *)

(** C4, as the code has it.  After a first [close] on a listening
    proxy, a second [close] calls no listener's [close] method and
    leaves the object as it is, so no listener is closed twice; but the
    second call does not return: [this.httpServer] was deleted by the
    first, and reading [close] on it raises a TypeError. *)
Theorem second_close_closes_nothing (v : Shutdown.vanessa) (outer : Shutdown.listener) :
  Shutdown.httpServer v = Some outer →
  ∃ v1 closed1,
    Shutdown.close v = (Shutdown.Returned, v1, closed1) ∧
    Shutdown.close v1 = (Shutdown.TypeError, v1, []).
Proof.
  intros Hv. unfold Shutdown.close at 1. rewrite Hv.
  destruct (Shutdown.httpsServer v) as [l|].
  - eexists _, _. split; [reflexivity|]. reflexivity.
  - destruct (Shutdown.sslServers v) as [servers|].
    + destruct (foldl _ _ _) as [servers' closed'].
      eexists _, _. split; [reflexivity|]. reflexivity.
    + eexists _, _. split; [reflexivity|]. reflexivity.
Qed.

Lemma second_close_closes_nothing_witness :
  ∃ v1 closed1,
    Shutdown.close Samples.listening_proxy = (Shutdown.Returned, v1, closed1) ∧
    Shutdown.close v1 = (Shutdown.TypeError, v1, []).
Proof. apply (second_close_closes_nothing Samples.listening_proxy Shutdown.Outer). reflexivity. Defined.

(** C4 as stated fails: the second [close] in a row does fail. *)
Lemma second_close_fails :
  (Shutdown.close Samples.listening_proxy).1.1 = Shutdown.Returned ∧
  (Shutdown.close (Shutdown.close Samples.listening_proxy).1.2).1.1 ≠ Shutdown.Returned.
Proof. vm_compute. split; [reflexivity | discriminate]. Qed.

(** ** The upstream agent selector *)



(** C6. Whatever options the PAC layer hands to the patched callback
    (none at all, options without a server name, or options with
    another server name), the agent's own callback receives options
    whose [servername] is [ctx.hostname]; every other option is passed
    on unchanged. *)
Theorem pac_callback_sets_servername {R F Res : Type}
    (connect : R → gmap string ServerProxy.optionValue → F → Res)
    (ctx : ServerProxy.context) (r : R)
    (opts : option (gmap string ServerProxy.optionValue)) (fn : F) :
  ∃ passed : gmap string ServerProxy.optionValue,
    ServerProxy.pac_callback connect ctx r opts fn = connect r passed fn ∧
    passed = ServerProxy.with_servername ctx opts ∧
    passed !! "servername" = Some (ServerProxy.OString (ServerProxy.hostname ctx)) ∧
    ∀ k, k ≠ "servername" → passed !! k = default ∅ opts !! k.
Proof.
  exists (ServerProxy.with_servername ctx opts). repeat split.
  - apply lookup_insert_eq.
  - intros k Hk. unfold ServerProxy.with_servername. by rewrite lookup_insert_ne.
Qed.

(** With [HTTP_PROXY=http://up:3128] in the environment and no
    operating-system settings, a plain-HTTP request is sent through the
    HTTP upstream and the summary records it. *)
Example http_request_via_environment_proxy :
  ServerProxy.serverProxyMiddleware
    (ServerProxy.Context "http" "example.com"
       (ClientProxy.getSystemProxy None {["HTTP_PROXY" := "http://up:3128"]}) None None)
  = ServerProxy.Context "http" "example.com"
      (ClientProxy.ProxyConfig (Some "http://up:3128") None None None)
      (Some (ServerProxy.SummaryProxy "HTTP" "http://up:3128"))
      (Some (ServerProxy.HTTPAgent "http://up:3128")).
Proof. reflexivity. Qed.

(** The PAC layer passes no options: the server name is filled in. *)
Example pac_direct_gets_servername :
  ServerProxy.with_servername Samples.all_upstreams None
  = {["servername" := ServerProxy.OString "example.com"]}.
Proof. reflexivity. Qed.

(** ** WebSocket close propagation *)

(** C8. A first close (no flag set yet) with a code between 1004 and
    1006 closes the opposite side with code 1001 and the same message
    when that side is open and the closing side is closed; it records
    who closed first, setting [closedByServer] to the origin and
    [closedByClient] to its negation; and once recorded, any further
    close event changes nothing and closes nothing. *)
Theorem first_close_is_forwarded_as_1001
    (ctx : WebSocketBridge.wsContext) (byServer : bool) (code : Z) (message : string) :
  let closing := if byServer then WebSocketBridge.proxyToServerWebSocket ctx
                 else WebSocketBridge.clientToProxyWebSocket ctx in
  let opposite := if byServer then WebSocketBridge.clientToProxyWebSocket ctx
                  else WebSocketBridge.proxyToServerWebSocket ctx in
  let result := WebSocketBridge.onWebSocketClose ctx byServer code message in
  (1004 ≤ code ≤ 1006)%Z →
  WebSocketBridge.flag (WebSocketBridge.closedByServer ctx) = false →
  WebSocketBridge.flag (WebSocketBridge.closedByClient ctx) = false →
  (closing = WebSocketBridge.CLOSED → opposite = WebSocketBridge.OPEN →
     result.2 = [if byServer then WebSocketBridge.CloseClientToProxy 1001 message
                 else WebSocketBridge.CloseProxyToServer 1001 message]) ∧
  WebSocketBridge.closedByServer result.1 = Some byServer ∧
  WebSocketBridge.closedByClient result.1 = Some (negb byServer) ∧
  ∀ byServer' code' message',
    WebSocketBridge.onWebSocketClose result.1 byServer' code' message' = (result.1, []).
Proof.
  intros closing opposite result Hcode Hs Hc.
  assert (Hflags : WebSocketBridge.closedByServer result.1 = Some byServer ∧
                   WebSocketBridge.closedByClient result.1 = Some (negb byServer)).
  { subst result. unfold WebSocketBridge.onWebSocketClose. rewrite Hs, Hc. simpl.
    repeat case_bool_decide; simpl; repeat case_bool_decide; done. }
  split; [|split; [apply Hflags | split; [apply Hflags|]]].
  - intros Hclosing Hopposite. subst result closing opposite.
    unfold WebSocketBridge.onWebSocketClose. rewrite Hs, Hc. simpl.
    rewrite (bool_decide_eq_true_2 (code >= 1004)%Z) by lia.
    rewrite (bool_decide_eq_true_2 (code <= 1006)%Z) by lia. simpl.
    destruct byServer; rewrite Hclosing, Hopposite; reflexivity.
  - intros byServer' code' message'. destruct Hflags as [H1 H2].
    unfold WebSocketBridge.onWebSocketClose at 1. rewrite H1, H2.
    by destruct byServer.
Qed.

Lemma first_close_is_forwarded_as_1001_witness :
  (WebSocketBridge.onWebSocketClose Samples.server_gone true 1005 "bye").2
    = [WebSocketBridge.CloseClientToProxy 1001 "bye"].
Proof.
  assert (Hcode : (1004 ≤ 1005 ≤ 1006)%Z) by lia.
  exact (proj1 (first_close_is_forwarded_as_1001 Samples.server_gone true 1005 "bye"
                  Hcode eq_refl eq_refl)
           eq_refl eq_refl).
Defined.

(** ** The system-proxy resolver *)

Section SystemProxy.
Import ClientProxy.

Lemma truthy_true (v : option string) (s : string) :
  v = Some s → s ≠ "" → truthy v = true.
Proof. intros -> Hs. simpl. by rewrite bool_decide_eq_false_2. Qed.

Lemma os_then_env_resolved (res env : gmap string string)
    (scheme proxyKey portKey upper lower : string) :
  os_then_env res env scheme proxyKey portKey upper lower
    (if truthy (res !! proxyKey)
     then Some (scheme ++ to_string (res !! proxyKey) ++ ":" ++ to_string (res !! portKey))%string
     else or_else (env !! upper) (env !! lower)).
Proof.
  repeat split.
  - intros host Hhost Hne. rewrite (truthy_true _ _ Hhost Hne). by rewrite Hhost.
  - intros -> v Hv Hne. unfold or_else. by rewrite (truthy_true _ _ Hv Hne).
  - intros -> Hu. unfold or_else. by rewrite Hu.
Qed.

Example scutil_output_is_read :
  let nl := String newline "" in
  let out := ("<dictionary> {" ++ nl ++ "  HTTPEnable : 1" ++ nl ++ "  HTTPPort : 8080" ++ nl
              ++ "  HTTPProxy : 127.0.0.1" ++ nl
              ++ "  ProxyAutoConfigURLString : http://wpad/proxy.pac" ++ nl ++ "}" ++ nl)%string in
  getSystemProxy (Some out) {["HTTP_PROXY" := "http://up:3128"; "all_proxy" := "socks://s:1080"]}
  = {| http := Some "http://127.0.0.1:8080"; https := None;
       socks := Some "socks://s:1080"; pac := Some "http://wpad/proxy.pac" |}.
Proof. vm_compute. reflexivity. Qed.

End SystemProxy.

(** C9, as the code has it.  Each of [http], [https] and [socks] is
    [scheme://host:port] built from the operating system's settings
    when these name a proxy host, whatever the environment holds;
    otherwise the value of [HTTP_PROXY], [HTTPS_PROXY] or [ALL_PROXY]
    when that is non-empty; otherwise the value of the same name in
    lower case (these two spellings only).  Environment values are
    passed on as they are.  [pac] is the operating system's PAC URL,
    unchanged, when there is one, and absent otherwise. *)
Theorem system_proxy_fields (output : option string) (env : gmap string string) :
  let res := ClientProxy.scutil_settings output in
  let cfg := ClientProxy.getSystemProxy output env in
  ClientProxy.os_then_env res env "http://" "HTTPProxy" "HTTPPort"
    "HTTP_PROXY" "http_proxy" (ClientProxy.http cfg) ∧
  ClientProxy.os_then_env res env "https://" "HTTPSProxy" "HTTPSPort"
    "HTTPS_PROXY" "https_proxy" (ClientProxy.https cfg) ∧
  ClientProxy.os_then_env res env "socks://" "SOCKSProxy" "SOCKSPort"
    "ALL_PROXY" "all_proxy" (ClientProxy.socks cfg) ∧
  (∀ u, res !! "ProxyAutoConfigURLString" = Some u → u ≠ "" → ClientProxy.pac cfg = Some u) ∧
  (ClientProxy.truthy (res !! "ProxyAutoConfigURLString") = false → ClientProxy.pac cfg = None).
Proof.
  intros res cfg. subst cfg. unfold ClientProxy.getSystemProxy, ClientProxy.resolve.
  fold res. simpl.
  split; [apply os_then_env_resolved|].
  split; [apply os_then_env_resolved|].
  split; [apply os_then_env_resolved|].
  split.
  - intros u Hu Hne. by rewrite (truthy_true _ _ Hu Hne).
  - by intros ->.
Qed.

(** C9 as stated fails twice.  A variable spelled [Http_Proxy] is the
    HTTP proxy variable when names are compared without regard to case,
    yet the resolver does not read it; and a value that is not a URL
    ([proxyhost] has no scheme) is returned as the field. *)
Lemma environment_is_not_read_ignoring_case :
  (ClientProxy.set_ignoring_case Samples.mixed_case_env "HTTP_PROXY" "http://up:3128" ∧
   ClientProxy.http (ClientProxy.getSystemProxy None Samples.mixed_case_env) = None) ∧
  (ClientProxy.http (ClientProxy.getSystemProxy None Samples.bare_host_env) = Some "proxyhost" ∧
   ClientProxy.has_scheme "proxyhost" = false).
Proof.
  split.
  - split; [|reflexivity].
    exists "Http_Proxy". split; [reflexivity|]. split; [reflexivity | discriminate].
  - split; reflexivity.
Qed.

(** ** The alias branch of the pool *)

(** C1 at a concrete input.  After a TLS CONNECT to [*.example.com] the
    pool holds an entry under that key with port 40000.  A TLS CONNECT
    to [a.example.com] then takes the alias branch: the entry installed
    for [a.example.com] has the wildcard's entry itself as its [port],
    not the number 40000, and that entry is what [makeConnection]
    receives as the port. *)
Theorem alias_entry_holds_the_wildcard_entry :
  Pool.sslServers Samples.wildcard_served !! "a.example.com" = None ∧
  Pool.sslServers Samples.wildcard_served !! "*.example.com" = Some Samples.wildcard_entry ∧
  Pool.port Samples.wildcard_entry = Pool.PortNumber 40000 ∧
  Pool.sslServers
    (Pool.onHttpServerConnectData (Samples.tls_connect "a.example.com:443")
       Samples.wildcard_served) !! "a.example.com"
    = Some (Pool.SslServer None None (Pool.PortObject Samples.wildcard_entry)) ∧
  Pool.PortObject Samples.wildcard_entry ≠ Pool.PortNumber 40000 ∧
  Pool.effects
    (Pool.onHttpServerConnectData (Samples.tls_connect "a.example.com:443")
       Samples.wildcard_served)
    = Pool.MakeConnection (Samples.tls_connect "a.example.com:443")
        (Pool.PortObject Samples.wildcard_entry)
        :: Pool.effects Samples.wildcard_served.
Proof. vm_compute. repeat split; discriminate. Qed.

(** ** Single flight in the SSL server pool *)

Section Counting.
Context {A : Type}.
Implicit Types (f g : A → bool) (l : list A).

Lemma count_app f l1 l2 : Pool.count f (l1 ++ l2) = (Pool.count f l1 + Pool.count f l2)%nat.
Proof. induction l1 as [|x l1 IH]; simpl; [done | rewrite IH; lia]. Qed.

Lemma count_Permutation f l l' : l ≡ₚ l' → Pool.count f l = Pool.count f l'.
Proof. induction 1; simpl; lia. Qed.

Lemma count_le_impl f g l :
  (∀ x, f x = true → g x = true) → (Pool.count f l ≤ Pool.count g l)%nat.
Proof.
  intros Hfg. induction l as [|x l IH]; simpl; [done|].
  destruct (f x) eqn:Hf; [rewrite (Hfg x Hf)|]; destruct (g x); lia.
Qed.


End Counting.

Section PoolInvariant.
Import Hostname Pool.
Variable addressPort : nat → Z.

Implicit Types (c : connectData) (cb : callback) (l : list callback)
  (pool : gmap string sslServer) (sems : gmap string semaphore)
  (effs : list effect) (h w : string) (seen : string → nat).

Lemma tls_for_true h c : tls_for h c = true ↔ is_tls c ∧ hostname_of c = h.
Proof.
  unfold tls_for, is_tls. rewrite andb_true_iff, bool_decide_eq_true. done.
Qed.

Lemma tls_for_self c : is_tls c → tls_for (hostname_of c) c = true.
Proof. intros H. by apply tls_for_true. Qed.

Lemma tls_for_other h c : hostname_of c ≠ h → tls_for h c = false.
Proof.
  intros H. destruct (tls_for h c) eqn:E; [|done].
  apply tls_for_true in E. by destruct E.
Qed.

Lemma listens_holds h cb : listens_for h cb = true → holds (wildcardHost h) cb = true.
Proof.
  destruct cb as [w|c|c lid]; simpl; try done.
  intros H%bool_decide_eq_true. unfold holds. simpl.
  apply bool_decide_eq_true. by rewrite H.
Qed.

Lemma count_listens_le_holds h l :
  (count (listens_for h) l ≤ count (holds (wildcardHost h)) l)%nat.
Proof. apply count_le_impl, listens_holds. Qed.

Lemma holds_slot cb : holds (slot_of cb) cb = true.
Proof. unfold holds. by apply bool_decide_eq_true. Qed.

Lemma holds_other w cb : slot_of cb ≠ w → holds w cb = false.
Proof. intros H. unfold holds. by apply bool_decide_eq_false. Qed.

Arguments holds : simpl never.
Arguments tls_for : simpl never.

Lemma Inv_perm seen l l' pool sems effs :
  l ≡ₚ l' → Inv addressPort seen l pool sems effs → Inv addressPort seen l' pool sems effs.
Proof.
  intros Hp [Hsem Hnosem Htasks Hcreated Hlisten Hseen Htunnel Hentry Hused Hthrow].
  split.
  - intros w sem Hw. rewrite <- (count_Permutation _ _ _ Hp). by apply Hsem.
  - intros w Hw. rewrite <- (count_Permutation _ _ _ Hp). by apply Hnosem.
  - by rewrite <- Hp.
  - intros h. rewrite <- (count_Permutation _ _ _ Hp). apply Hcreated.
  - intros h Hh. rewrite <- (count_Permutation _ _ _ Hp). by apply Hlisten.
  - intros h. rewrite <- (count_Permutation _ _ _ Hp). apply Hseen.
  - exact Htunnel.
  - exact Hentry.
  - exact Hused.
  - exact Hthrow.
Qed.

(** A tunnel opened directly: the plain path, or the pool's fast path. *)
Lemma Inv_direct seen seen' l pool sems effs c pv :
  Inv addressPort seen l pool sems effs →
  (is_tls c → ∃ e, pool !! hostname_of c = Some e ∧ port e = pv) →
  (∀ h, seen' h = (seen h + (if tls_for h c then 1 else 0))%nat) →
  Inv addressPort seen' l pool sems (MakeConnection c pv :: effs).
Proof.
  intros [Hsem Hnosem Htasks Hcreated Hlisten Hseen Htunnel Hentry Hused Hthrow] Hc Hseen'.
  split.
  - exact Hsem.
  - exact Hnosem.
  - exact Htasks.
  - exact Hcreated.
  - exact Hlisten.
  - intros h. rewrite Hseen', Hseen. simpl. lia.
  - intros c' pv' [Heq|Hin]%elem_of_cons Htls.
    + simplify_eq. by apply Hc.
    + by apply Htunnel.
  - exact Hentry.
  - intros h Hh. specialize (Hused h Hh). simpl. lia.
  - intros m [Heq|Hin]%elem_of_cons; [done | by eapply Hthrow].
Qed.

(** The slot is taken: the task joins the queue. *)
Lemma Inv_enqueue seen seen' l pool sems effs c sem :
  Inv addressPort seen l pool sems effs →
  sems !! wildcardHost (hostname_of c) = Some sem →
  (current sem + 1 > capacity sem)%Z →
  is_tls c →
  (∀ h, seen' h = (seen h + (if tls_for h c then 1 else 0))%nat) →
  Inv addressPort seen' l pool
    (<[wildcardHost (hostname_of c) :=
         Semaphore (capacity sem) (current sem) (queue sem ++ [c])]> sems) effs.
Proof.
  intros [Hsem Hnosem Htasks Hcreated Hlisten Hseen Htunnel Hentry Hused Hthrow]
    Hw Hfull Htls Hseen'.
  destruct (Hsem _ _ Hw) as (Hcap & Hcur & Hle & Hq & Hall).
  split.
  - intros w s. rewrite lookup_insert. case_decide as Hweq.
    + intros [= <-]. subst w. simpl. repeat split; try done.
      * intros _. lia.
      * apply Forall_app. split; [done|]. by repeat constructor.
    + by apply Hsem.
  - intros w. rewrite lookup_insert. case_decide; [done | by apply Hnosem].
  - exact Htasks.
  - exact Hcreated.
  - exact Hlisten.
  - intros h. rewrite Hseen', Hseen. unfold queue_at.
    rewrite lookup_insert. case_decide as Hweq.
    + rewrite <- Hweq, Hw. simpl. rewrite count_app. simpl. lia.
    + rewrite (tls_for_other h c); [lia|]. by intros <-.
  - exact Htunnel.
  - exact Hentry.
  - exact Hused.
  - exact Hthrow.
Qed.

(** The slot is free: the task takes it and is about to run. *)
Lemma Inv_grant seen seen' l pool sems effs c :
  let w := wildcardHost (hostname_of c) in
  let sem := default (Semaphore 1 0 []) (sems !! w) in
  Inv addressPort seen l pool sems effs →
  ¬ (current sem + 1 > capacity sem)%Z →
  is_tls c →
  (∀ h, seen' h = (seen h + (if tls_for h c then 1 else 0))%nat) →
  Inv addressPort seen' (Taken c :: l) pool
    (<[w := Semaphore (capacity sem) (current sem + 1) (queue sem)]> sems) effs.
Proof.
  intros w sem [Hsem Hnosem Htasks Hcreated Hlisten Hseen Htunnel Hentry Hused Hthrow]
    Hfree Htls Hseen'.
  assert (Hsemw : capacity sem = 1%Z ∧ current sem = 0%Z ∧
                  count (holds w) l = 0%nat ∧
                  Forall (λ c, wildcardHost (hostname_of c) = w ∧ is_tls c) (queue sem) ∧
                  queue sem = queue_at w sems).
  { subst sem. unfold queue_at. destruct (sems !! w) as [s|] eqn:Hw; simpl in *.
    - destruct (Hsem _ _ Hw) as (Hcap & Hcur & Hle & Hq & Hall).
      repeat split; try done; lia.
    - repeat split; try done. by apply Hnosem. }
  destruct Hsemw as (Hcap & Hcur & Hcount & Hall & Hqueue).
  assert (Hholds : holds w (Taken c) = true) by apply (holds_slot (Taken c)).
  split.
  - intros w' s. rewrite lookup_insert. case_decide as Hweq.
    + intros [= <-]. subst w'. simpl. rewrite Hholds, Hcount.
      repeat split; try done; lia.
    + intros Hw'. simpl. rewrite holds_other by done. by apply Hsem.
  - intros w'. rewrite lookup_insert. case_decide as Hweq; [done|].
    intros Hw'. simpl. rewrite holds_other by done. by apply Hnosem.
  - constructor; [|done]. by intros ? [= <-].
  - intros h. simpl. apply Hcreated.
  - intros h Hh. simpl. by apply Hlisten.
  - intros h. rewrite Hseen', Hseen. simpl.
    assert (queue_at (wildcardHost h)
              (<[w := Semaphore (capacity sem) (current sem + 1) (queue sem)]> sems)
            = queue_at (wildcardHost h) sems) as ->.
    { unfold queue_at at 1. rewrite lookup_insert. case_decide as Hweq; [|done].
      simpl. by rewrite Hqueue, Hweq. }
    change (serves h (Taken c)) with (tls_for h c). lia.
  - exact Htunnel.
  - exact Hentry.
  - exact Hused.
  - exact Hthrow.
Qed.

Lemma holds_Taken c : holds (wildcardHost (hostname_of c)) (Taken c) = true.
Proof. apply (holds_slot (Taken c)). Qed.

Lemma holds_Leave w : holds w (Leave w) = true.
Proof. apply (holds_slot (Leave w)). Qed.

Lemma holds_same_slot w cb cb' : slot_of cb = slot_of cb' → holds w cb = holds w cb'.
Proof. unfold holds. by intros ->. Qed.

(** The granted task finds an entry for its hostname. *)
Lemma Inv_hit seen l pool sems effs c e :
  Inv addressPort seen (Taken c :: l) pool sems effs →
  pool !! hostname_of c = Some e →
  Inv addressPort seen (l ++ [Leave (wildcardHost (hostname_of c))]) pool sems
    (MakeConnection c (port e) :: effs).
Proof.
  intros HI He.
  apply (Inv_perm seen (Leave (wildcardHost (hostname_of c)) :: l));
    [by rewrite Permutation_app_comm|].
  destruct HI as [Hsem Hnosem Htasks Hcreated Hlisten Hseen Htunnel Hentry Hused Hthrow].
  apply Forall_cons in Htasks as [Hc Htasks]. specialize (Hc c eq_refl).
  split.
  - intros w s Hw. specialize (Hsem w s Hw). simpl in *.
    by rewrite (holds_same_slot w (Leave _) (Taken c)).
  - intros w Hw. specialize (Hnosem w Hw). simpl in *.
    by rewrite (holds_same_slot w (Leave _) (Taken c)).
  - constructor; [done | exact Htasks].
  - exact Hcreated.
  - exact Hlisten.
  - intros h. rewrite Hseen. simpl. change (serves h (Taken c)) with (tls_for h c). lia.
  - intros c' pv' [Heq|Hin]%elem_of_cons Htls.
    + simplify_eq. by exists e.
    + by apply Htunnel.
  - exact Hentry.
  - intros h Hh. specialize (Hused h Hh). simpl. lia.
  - intros m [Heq|Hin]%elem_of_cons; [done | by eapply Hthrow].
Qed.

(** While a task holds the slot of its wildcard, no listener is being
    started for its hostname. *)
Lemma no_listener_while_held seen l pool sems effs cb :
  Inv addressPort seen (cb :: l) pool sems effs →
  ∀ h, wildcardHost h = slot_of cb → count (listens_for h) l = 0%nat.
Proof.
  intros HI h Hh.
  pose proof (count_listens_le_holds h l) as Hle.
  assert (count (holds (wildcardHost h)) (cb :: l) ≤ 1)%nat as Hone.
  { destruct (sems !! wildcardHost h) as [s|] eqn:Hw.
    - by destruct (inv_sem _ _ _ _ _ _ HI _ _ Hw) as (_ & _ & ? & _).
    - rewrite (inv_nosem _ _ _ _ _ _ HI _ Hw). lia. }
  simpl in Hone. rewrite Hh, holds_slot in Hone. rewrite Hh in Hle. lia.
Qed.

(** The granted task finds an entry under the wildcard key and installs
    an alias. *)
Lemma Inv_alias seen l pool sems effs c ew :
  let alias := SslServer None None (PortObject ew) in
  Inv addressPort seen (Taken c :: l) pool sems effs →
  pool !! (hostname_of c) = None →
  pool !! wildcardHost (hostname_of c) = Some ew →
  Inv addressPort seen (l ++ [Leave (wildcardHost (hostname_of c))]) (<[(hostname_of c) := alias]> pool) sems
    (MakeConnection c (port alias) :: effs).
Proof.
  intros alias HI Hh Hw.
  pose proof (no_listener_while_held _ _ _ _ _ _ HI (hostname_of c) eq_refl) as Hnone.
  apply (Inv_perm seen (Leave (wildcardHost (hostname_of c)) :: l));
    [by rewrite Permutation_app_comm|].
  destruct HI as [Hsem Hnosem Htasks Hcreated Hlisten Hseen Htunnel Hentry Hused Hthrow].
  apply Forall_cons in Htasks as [Hc Htasks]. specialize (Hc c eq_refl).
  assert (Hne : wildcardHost (hostname_of c) ≠ (hostname_of c)) by (intros Heq; congruence).
  split.
  - intros w s Hws. specialize (Hsem w s Hws). simpl in *.
    by rewrite (holds_same_slot w (Leave _) (Taken c)).
  - intros w Hws. specialize (Hnosem w Hws). simpl in *.
    by rewrite (holds_same_slot w (Leave _) (Taken c)).
  - constructor; [done | exact Htasks].
  - intros h'. simpl. rewrite Hcreated. rewrite lookup_insert. case_decide as Heq.
    + subst h'. by rewrite Hh.
    + done.
  - intros h'. rewrite lookup_insert. case_decide as Heq.
    + subst h'. intros _. simpl. exact Hnone.
    + intros Hh'. simpl. by apply Hlisten.
  - intros h'. rewrite Hseen. simpl. change (serves h' (Taken c)) with (tls_for h' c). lia.
  - intros c' pv' [Heq|Hin]%elem_of_cons Htls.
    + simplify_eq. exists alias. split; [apply lookup_insert_eq | done].
    + destruct (Htunnel c' pv' Hin Htls) as (e & He & Hp).
      exists e. split; [|done]. rewrite lookup_insert_ne; [done|].
      intros Heq.  congruence.
  - intros h' e. rewrite lookup_insert. case_decide as Heq.
    + intros [= <-]. subst h'. right. split; [done|]. split; [done|].
      rewrite lookup_insert_ne by done. by rewrite Hw.
    + intros He. destruct (Hentry h' e He) as [Hl|(Ho & Hn & Hs)]; [by left|].
      right. split; [done|]. split; [done|].
      rewrite lookup_insert. case_decide; [done | exact Hs].
  - intros h'. rewrite lookup_insert. case_decide as Heq.
    + subst h'. intros _. simpl.
      assert (tls_for (hostname_of c) c = true) as -> by apply (tls_for_self c Hc). lia.
    + intros Hh'. specialize (Hused h' Hh'). simpl. lia.
  - intros m [Heq|Hin]%elem_of_cons; [done | by eapply Hthrow].
Qed.

(** The granted task finds no entry and starts a listener. *)
Lemma Inv_create seen l pool sems effs c lid :
  Inv addressPort seen (Taken c :: l) pool sems effs →
  pool !! (hostname_of c) = None →
  Inv addressPort seen (l ++ [Listening c lid]) pool sems (CreateServer lid (hostname_of c) :: effs).
Proof.
  intros HI Hh.
  apply (Inv_perm seen (Listening c lid :: l)); [by rewrite Permutation_app_comm|].
  destruct HI as [Hsem Hnosem Htasks Hcreated Hlisten Hseen Htunnel Hentry Hused Hthrow].
  apply Forall_cons in Htasks as [Hc Htasks]. specialize (Hc c eq_refl).
  split.
  - intros w s Hws. specialize (Hsem w s Hws). simpl in *.
    by rewrite (holds_same_slot w (Listening _ _) (Taken c)).
  - intros w Hws. specialize (Hnosem w Hws). simpl in *.
    by rewrite (holds_same_slot w (Listening _ _) (Taken c)).
  - constructor; [|exact Htasks]. by intros ? [= <-].
  - intros h'. simpl. rewrite Hcreated.
    destruct (decide ((hostname_of c) = h')) as [<-|Hne].
    + rewrite !bool_decide_eq_true_2 by done. simpl. lia.
    + rewrite !bool_decide_eq_false_2 by done. simpl. lia.
  - intros h' Hh'. simpl.
    rewrite bool_decide_eq_false_2; [by apply Hlisten|].
    intros <-. rewrite Hh in Hh'. by destruct Hh'.
  - intros h'. rewrite Hseen. simpl.
    change (serves h' (Taken c)) with (tls_for h' c).
    change (serves h' (Listening c lid)) with (tls_for h' c). lia.
  - intros c' pv' [Heq|Hin]%elem_of_cons Htls; [done | by apply Htunnel].
  - exact Hentry.
  - exact Hused.
  - intros m [Heq|Hin]%elem_of_cons; [done | by eapply Hthrow].
Qed.

(** The listener is bound: its entry is installed under the hostname. *)
Lemma Inv_listening seen l pool sems effs c lid :
  let entry := SslServer (Some lid) (Some lid) (PortNumber (addressPort lid)) in
  Inv addressPort seen (Listening c lid :: l) pool sems effs →
  Inv addressPort seen (l ++ [Leave (wildcardHost (hostname_of c))]) (<[(hostname_of c) := entry]> pool) sems
    (MakeConnection c (port entry) :: effs).
Proof.
  intros entry HI.
  pose proof (no_listener_while_held _ _ _ _ _ _ HI (hostname_of c) eq_refl) as Hnone.
  apply (Inv_perm seen (Leave (wildcardHost (hostname_of c)) :: l));
    [by rewrite Permutation_app_comm|].
  destruct HI as [Hsem Hnosem Htasks Hcreated Hlisten Hseen Htunnel Hentry Hused Hthrow].
  apply Forall_cons in Htasks as [Hc Htasks]. specialize (Hc c eq_refl).
  assert (Hself : listens_for (hostname_of c) (Listening c lid) = true)
    by by apply bool_decide_eq_true.
  assert (Hh : pool !! (hostname_of c) = None).
  { destruct (pool !! (hostname_of c)) as [e|] eqn:He; [|done].
    assert (is_Some (pool !! (hostname_of c))) as Hs by by rewrite He.
    specialize (Hlisten (hostname_of c) Hs). simpl in Hlisten.
    change (bool_decide (hostname_of c = hostname_of c))
      with (listens_for (hostname_of c) (Listening c lid)) in Hlisten.
    rewrite Hself in Hlisten. lia. }
  split.
  - intros w s Hws. specialize (Hsem w s Hws). simpl in *.
    by rewrite (holds_same_slot w (Leave _) (Listening c lid)).
  - intros w Hws. specialize (Hnosem w Hws). simpl in *.
    by rewrite (holds_same_slot w (Leave _) (Listening c lid)).
  - constructor; [done | exact Htasks].
  - intros h'. simpl. rewrite Hcreated. simpl. rewrite lookup_insert.
    destruct (decide (hostname_of c = h')) as [<-|Hne].
    + rewrite Hh, bool_decide_eq_true_2, Hnone by done. simpl. lia.
    + rewrite bool_decide_eq_false_2 by done. simpl. lia.
  - intros h'. rewrite lookup_insert.
    destruct (decide (hostname_of c = h')) as [<-|Hne].
    + intros _. simpl. exact Hnone.
    + intros Hh'. specialize (Hlisten h' Hh'). simpl in *.
      rewrite bool_decide_eq_false_2 in Hlisten by done. exact Hlisten.
  - intros h'. rewrite Hseen. simpl.
    change (serves h' (Listening c lid)) with (tls_for h' c). lia.
  - intros c' pv' [Heq|Hin]%elem_of_cons Htls.
    + simplify_eq. exists entry. split; [apply lookup_insert_eq | done].
    + destruct (Htunnel c' pv' Hin Htls) as (e & He & Hp).
      exists e. split; [|done]. rewrite lookup_insert_ne; [done|].
      intros Heq. congruence.
  - intros h' e. rewrite lookup_insert.
    destruct (decide (hostname_of c = h')) as [<-|Hne].
    + intros [= <-]. left. by exists lid.
    + intros He. destruct (Hentry h' e He) as [Hl|(Ho & Hn & Hs)]; [by left|].
      right. split; [done|]. split; [done|].
      rewrite lookup_insert. by destruct (decide (hostname_of c = wildcardHost h')).
  - intros h'. rewrite lookup_insert.
    destruct (decide (hostname_of c = h')) as [<-|Hne].
    + intros _. simpl.
      assert (tls_for (hostname_of c) c = true) as -> by apply (tls_for_self c Hc). lia.
    + intros Hh'. specialize (Hused h' Hh'). simpl. lia.
  - intros m [Heq|Hin]%elem_of_cons; [done | by eapply Hthrow].
Qed.

(** What a pending [Leave] knows about its semaphore. *)
Lemma leave_held seen l pool sems effs w :
  Inv addressPort seen (Leave w :: l) pool sems effs →
  ∃ sem, sems !! w = Some sem ∧ capacity sem = 1%Z ∧ current sem = 1%Z ∧
         count (holds w) l = 0%nat ∧
         Forall (λ c, wildcardHost (hostname_of c) = w ∧ is_tls c) (queue sem).
Proof.
  intros HI. destruct (sems !! w) as [sem|] eqn:Hw.
  - destruct (inv_sem _ _ _ _ _ _ HI _ _ Hw) as (Hcap & Hcur & Hle & _ & Hall).
    simpl in Hcur, Hle. rewrite holds_Leave in Hcur, Hle.
    exists sem. repeat split; try done; lia.
  - pose proof (inv_nosem _ _ _ _ _ _ HI _ Hw) as H0.
    simpl in H0. rewrite holds_Leave in H0. lia.
Qed.

(** The slot is given back and nobody waits. *)
Lemma Inv_leave_idle seen l pool sems effs w sem :
  Inv addressPort seen (Leave w :: l) pool sems effs →
  sems !! w = Some sem → queue sem = [] →
  Inv addressPort seen l pool (<[w := Semaphore 1 0 []]> sems) effs.
Proof.
  intros HI Hw Hq.
  destruct (leave_held _ _ _ _ _ _ HI) as (sem' & Hw' & Hcap & Hcur & Hcount & Hall).
  destruct HI as [Hsem Hnosem Htasks Hcreated Hlisten Hseen Htunnel Hentry Hused Hthrow].
  apply Forall_cons in Htasks as [_ Htasks].
  split.
  - intros w' s. rewrite lookup_insert. destruct (decide (w = w')) as [<-|Hne].
    + intros [= <-]. simpl. rewrite Hcount. repeat split; try done. lia.
    + intros Hs. specialize (Hsem w' s Hs). simpl in Hsem.
      by rewrite (holds_other w' (Leave w)) in Hsem.
  - intros w'. rewrite lookup_insert. destruct (decide (w = w')) as [<-|Hne]; [done|].
    intros Hs. specialize (Hnosem w' Hs). simpl in Hnosem.
    by rewrite (holds_other w' (Leave w)) in Hnosem.
  - exact Htasks.
  - exact Hcreated.
  - exact Hlisten.
  - intros h. rewrite Hseen. simpl. unfold queue_at. rewrite lookup_insert.
    destruct (decide (w = wildcardHost h)) as [<-|Hne]; [|done].
    by rewrite Hw, Hq.
  - exact Htunnel.
  - exact Hentry.
  - exact Hused.
  - exact Hthrow.
Qed.

(** The slot passes to the first waiting task. *)
Lemma Inv_leave_next seen l pool sems effs w sem item rest :
  Inv addressPort seen (Leave w :: l) pool sems effs →
  sems !! w = Some sem → queue sem = item :: rest →
  Inv addressPort seen (l ++ [Taken item]) pool (<[w := Semaphore 1 1 rest]> sems) effs.
Proof.
  intros HI Hw Hq.
  destruct (leave_held _ _ _ _ _ _ HI) as (sem' & Hw' & Hcap & Hcur & Hcount & Hall).
  assert (sem' = sem) as -> by congruence.
  rewrite Hq in Hall. apply Forall_cons in Hall as [[Hitem Htls] Hrest].
  apply (Inv_perm seen (Taken item :: l)); [by rewrite Permutation_app_comm|].
  destruct HI as [Hsem Hnosem Htasks Hcreated Hlisten Hseen Htunnel Hentry Hused Hthrow].
  apply Forall_cons in Htasks as [_ Htasks].
  assert (Hholds : holds w (Taken item) = true).
  { rewrite <- Hitem. apply holds_Taken. }
  split.
  - intros w' s. rewrite lookup_insert. destruct (decide (w = w')) as [<-|Hne].
    + intros [= <-]. simpl. rewrite Hholds, Hcount. repeat split; try done; lia.
    + intros Hs. specialize (Hsem w' s Hs). simpl in *.
      rewrite (holds_other w' (Leave w)) in Hsem by done.
      rewrite (holds_other w' (Taken item)); [done|]. simpl. by rewrite Hitem.
  - intros w'. rewrite lookup_insert. destruct (decide (w = w')) as [<-|Hne]; [done|].
    intros Hs. specialize (Hnosem w' Hs). simpl in *.
    rewrite (holds_other w' (Leave w)) in Hnosem by done.
    rewrite (holds_other w' (Taken item)); [done|]. simpl. by rewrite Hitem.
  - constructor; [|exact Htasks]. by intros ? [= <-].
  - exact Hcreated.
  - exact Hlisten.
  - intros h. rewrite Hseen. simpl. change (serves h (Taken item)) with (tls_for h item).
    unfold queue_at. rewrite lookup_insert.
    destruct (decide (w = wildcardHost h)) as [Heq|Hne].
    + rewrite <- Heq, Hw, Hq. simpl. lia.
    + rewrite (tls_for_other h item); [lia|]. intros <-. by rewrite Hitem in Hne.
  - exact Htunnel.
  - exact Hentry.
  - exact Hused.
  - exact Hthrow.
Qed.

Lemma Inv_ext seen seen' l pool sems effs :
  (∀ h, seen' h = seen h) →
  Inv addressPort seen l pool sems effs → Inv addressPort seen' l pool sems effs.
Proof.
  intros Hext [Hsem Hnosem Htasks Hcreated Hlisten Hseen Htunnel Hentry Hused Hthrow].
  split; try assumption. intros h. rewrite Hext. apply Hseen.
Qed.

(** The invariant of a state whose unfinished callbacks are [l]. *)
Abbreviation InvAt seen l st :=
  (Inv addressPort seen l (sslServers st) (sslSemaphores st) (effects st)).

Lemma acquire_inv seen st c :
  InvAt seen (Taken c :: scheduled st) st →
  InvAt seen (scheduled (acquire c st)) (acquire c st).
Proof.
  intros HI. unfold acquire.
  destruct (sslServers st !! hostname_of c) as [e|] eqn:He.
  - simpl. by apply Inv_hit.
  - destruct (sslServers st !! wildcardHost (hostname_of c)) as [ew|] eqn:Hw.
    + simpl. by apply Inv_alias.
    + simpl. by apply Inv_create.
Qed.

Lemma listening_inv seen st c lid :
  InvAt seen (Listening c lid :: scheduled st) st →
  InvAt seen (scheduled (listening addressPort c lid st)) (listening addressPort c lid st).
Proof. intros HI. unfold listening. simpl. by apply Inv_listening. Qed.

Lemma leave_inv seen st w :
  InvAt seen (Leave w :: scheduled st) st →
  InvAt seen (scheduled (leave w st)) (leave w st).
Proof.
  intros HI.
  destruct (leave_held _ _ _ _ _ _ HI) as (sem & Hw & Hcap & Hcur & Hcount & Hall).
  unfold leave. rewrite Hw, Hcap, Hcur.
  destruct (queue sem) as [|item rest] eqn:Hq.
  - simpl. by apply (Inv_leave_idle _ _ _ _ _ _ sem).
  - simpl. by apply (Inv_leave_next _ _ _ _ _ _ sem).
Qed.

Lemma run_callback_inv seen st cb :
  InvAt seen (cb :: scheduled st) st →
  InvAt seen (scheduled (run_callback addressPort cb st)) (run_callback addressPort cb st).
Proof.
  destruct cb as [w|c|c lid]; simpl.
  - apply leave_inv.
  - apply acquire_inv.
  - apply listening_inv.
Qed.

Lemma connects_seen_snoc h evs ev :
  connects_seen h (evs ++ [ev])
  = (connects_seen h evs
     + match ev with
       | Connect c => if tls_for h c then 1 else 0
       | Run _ => 0
       end)%nat.
Proof.
  unfold connects_seen. rewrite count_app. simpl. destruct ev; simpl; lia.
Qed.

Lemma take_inv seen seen' st c :
  InvAt seen (scheduled st) st →
  is_tls c →
  (∀ h, seen' h = (seen h + (if tls_for h c then 1 else 0))%nat) →
  let st' := take (wildcardHost (hostname_of c)) c st in
  InvAt seen' (scheduled st') st'.
Proof.
  intros HI Htls Hseen'. unfold take.
  set (w := wildcardHost (hostname_of c)).
  set (sem := default (Semaphore 1 0 []) (sslSemaphores st !! w)).
  destruct (decide (current sem + 1 > capacity sem)%Z) as [Hfull|Hfree].
  - simpl. destruct (sslSemaphores st !! w) as [s|] eqn:Hw.
    + subst sem. simpl in *. by apply (Inv_enqueue seen).
    + subst sem. simpl in Hfull. lia.
  - apply acquire_inv. simpl. by apply (Inv_grant seen).
Qed.

Lemma step_invariant evs st ev :
  invariant addressPort evs st → invariant addressPort (evs ++ [ev]) (step addressPort st ev).
Proof.
  unfold invariant. intros HI. destruct ev as [c|i]; simpl.
  - unfold onHttpServerConnectData.
    destruct (looks_like_tls (head c !! 0%nat)) eqn:Htls.
    + destruct (sslServers st !! hostname_of c) as [e|] eqn:He.
      * simpl. eapply Inv_direct; [exact HI | by exists e |].
        intros h. by rewrite connects_seen_snoc.
      * apply (take_inv (λ h, connects_seen h evs)); [done | done |].
        intros h. by rewrite connects_seen_snoc.
    + simpl. eapply Inv_direct; [exact HI | |].
      * unfold is_tls. by rewrite Htls.
      * intros h. by rewrite connects_seen_snoc.
  - eapply Inv_ext; [intros h; rewrite connects_seen_snoc; simpl; by rewrite Nat.add_0_r|].
    destruct (scheduled st !! i) as [cb|] eqn:Hi; [|done].
    apply run_callback_inv. simpl.
    eapply Inv_perm; [|exact HI]. by apply delete_Permutation.
Qed.

Lemma listen_invariant p : invariant addressPort [] (listen p).
Proof.
  unfold invariant. simpl. split; simpl.
  - intros w sem Hw. by rewrite lookup_empty in Hw.
  - done.
  - constructor.
  - intros h. by rewrite lookup_empty.
  - done.
  - intros h. unfold queue_at. by rewrite lookup_empty.
  - intros c pv Hin. by apply elem_of_nil in Hin.
  - intros h e He. by rewrite lookup_empty in He.
  - intros h [e He]. by rewrite lookup_empty in He.
  - intros m Hin. by apply elem_of_nil in Hin.
Qed.

Lemma run_invariant evs0 evs st :
  invariant addressPort evs0 st → invariant addressPort (evs0 ++ evs) (run addressPort evs st).
Proof.
  revert evs0 st. induction evs as [|ev evs IH]; intros evs0 st HI.
  - by rewrite app_nil_r.
  - replace (evs0 ++ ev :: evs) with ((evs0 ++ [ev]) ++ evs) by by rewrite <- app_assoc.
    simpl. apply IH. by apply step_invariant.
Qed.

Lemma reachable_invariant p evs : invariant addressPort evs (run addressPort evs (listen p)).
Proof. apply (run_invariant [] evs). apply listen_invariant. Qed.





(** *** Every burst of CONNECTs is worked off *)








End PoolInvariant.




(* ================================================================== *)
(** * Further properties of the code *)

(** ** More on the SSL server pool *)

Section PoolMore.
Import Hostname Pool PoolLog.
Variable addressPort : nat → Z.

Implicit Types (c : connectData) (cb : callback) (st : state)
  (e : sslServer) (h w : string) (evs : list event).

Lemma count_pos_of_elem {A : Type} (f : A → bool) (l : list A) (x : A) :
  x ∈ l → f x = true → (0 < count f l)%nat.
Proof.
  intros Hin Hf. induction l as [|y l IH]; [by apply elem_of_nil in Hin|].
  apply elem_of_cons in Hin as [<-|Hin]; simpl.
  - rewrite Hf. lia.
  - specialize (IH Hin). lia.
Qed.


Lemma scheduled_listening_no_entry evs st c lid :
  invariant addressPort evs st → Listening c lid ∈ scheduled st →
  sslServers st !! hostname_of c = None.
Proof.
  intros HI Hin. destruct (sslServers st !! hostname_of c) as [e|] eqn:He; [|done].
  assert (Hs : is_Some (sslServers st !! hostname_of c)) by by rewrite He.
  pose proof (inv_listen _ _ _ _ _ _ HI _ Hs) as H0.
  assert (0 < count (listens_for (hostname_of c)) (scheduled st))%nat; [|lia].
  apply (count_pos_of_elem _ _ _ Hin). simpl. by apply bool_decide_eq_true.
Qed.

(** What [acquire] does to the pool: nothing, or one insertion under a
    hostname that had no entry. *)
Lemma acquire_keeps_entries st c h e :
  sslServers st !! h = Some e → sslServers (acquire c st) !! h = Some e.
Proof.
  intros He. unfold acquire.
  destruct (sslServers st !! hostname_of c) as [e'|] eqn:Hc; [done|].
  destruct (sslServers st !! wildcardHost (hostname_of c)) as [ew|]; [|done].
  simpl. rewrite lookup_insert_ne; [done|]. intros Heq. congruence.
Qed.

Lemma step_keeps_entries evs st ev h e :
  invariant addressPort evs st →
  sslServers st !! h = Some e → sslServers (step addressPort st ev) !! h = Some e.
Proof.
  intros HI He. destruct ev as [c|i]; simpl.
  - unfold onHttpServerConnectData.
    destruct (looks_like_tls _); [|done].
    destruct (sslServers st !! hostname_of c); [done|].
    unfold take. destruct (decide _); [done|]. by apply acquire_keeps_entries.
  - destruct (scheduled st !! i) as [cb|] eqn:Hi; [|done].
    destruct cb as [w|c|c lid]; simpl.
    + unfold leave. simpl. destruct (sslSemaphores st !! w) as [sem|]; [|done].
      destruct (queue sem); [by destruct (decide _) | by destruct (decide _)].
    + by apply acquire_keeps_entries.
    + rewrite lookup_insert_ne; [done|].
      intros Heq. apply list_elem_of_lookup_2 in Hi.
      pose proof (scheduled_listening_no_entry evs st c lid HI Hi). congruence.
Qed.

Lemma run_keeps_entries evs0 evs st h e :
  invariant addressPort evs0 st →
  sslServers st !! h = Some e → sslServers (run addressPort evs st) !! h = Some e.
Proof.
  revert evs0 st. induction evs as [|ev evs IH]; intros evs0 st HI He; [done|].
  simpl. apply (IH (evs0 ++ [ev])).
  - by apply step_invariant.
  - by eapply step_keeps_entries.
Qed.


Lemma run_split evs1 evs2 st :
  run addressPort (evs1 ++ evs2) st = run addressPort evs2 (run addressPort evs1 st).
Proof. unfold run. apply foldl_app. Qed.

(** *** Listener ids *)

Lemma Fresh_listen p : Fresh (listen p).
Proof.
  split; simpl.
  - intros lid h Hin. by apply elem_of_nil in Hin.
  - intros lid h h' Hin. by apply elem_of_nil in Hin.
  - intros c lid Hin. by apply elem_of_nil in Hin.
  - intros h e He. by rewrite lookup_empty in He.
Qed.

(** Effects that are not creations leave the bookkeeping alone. *)
Lemma Fresh_emit_connection st c pv :
  Fresh st → Fresh (makeConnection c pv st).
Proof.
  intros [Hb Ho Hl Hi]. split; simpl.
  - intros lid h [Heq|Hin]%elem_of_cons; [done | by eapply Hb].
  - intros lid h h' [Heq|Hin]%elem_of_cons [Heq'|Hin']%elem_of_cons; try done.
    by eapply Ho.
  - intros c' lid Hin. right. by apply Hl.
  - intros h e He lid Hlid. right. by eapply Hi.
Qed.

Lemma Fresh_schedule_other st cb :
  (∀ c lid, cb ≠ Listening c lid) → Fresh st → Fresh (schedule cb st).
Proof.
  intros Hcb [Hb Ho Hl Hi]. split; simpl; try done.
  intros c lid [Hin|Hin]%elem_of_app; [by apply Hl|].
  apply list_elem_of_singleton in Hin. by destruct (Hcb c lid).
Qed.

Lemma Fresh_semaphores st f :
  Fresh st → Fresh (set_sslSemaphores f st).
Proof. intros [Hb Ho Hl Hi]. by split. Qed.

Lemma Fresh_unschedule st i :
  Fresh st → Fresh (set_scheduled (delete i) st).
Proof.
  intros [Hb Ho Hl Hi]. split; simpl; try done.
  intros c lid Hin. apply Hl. by eapply list_elem_of_delete_inv.
Qed.

Lemma Fresh_acquire st c : Fresh st → Fresh (acquire c st).
Proof.
  intros HF. unfold acquire.
  destruct (sslServers st !! hostname_of c) as [e|] eqn:He.
  - apply Fresh_emit_connection, Fresh_schedule_other; [done | exact HF].
  - destruct (sslServers st !! wildcardHost (hostname_of c)) as [ew|] eqn:Hw.
    + apply Fresh_emit_connection.
      assert (HF' : Fresh (schedule (Leave (wildcardHost (hostname_of c))) st))
        by (by apply Fresh_schedule_other).
      destruct HF' as [Hb Ho Hl Hi]. split; simpl; try done.
      intros h e'. rewrite lookup_insert. destruct (decide (hostname_of c = h)) as [<-|Hne].
      * intros [= <-] lid Hlid. done.
      * apply Hi.
    + destruct HF as [Hb Ho Hl Hi]. split; simpl.
      * intros lid h [Heq|Hin]%elem_of_cons; [simplify_eq; lia|].
        specialize (Hb lid h Hin). lia.
      * intros lid h h' [Heq|Hin]%elem_of_cons [Heq'|Hin']%elem_of_cons.
        -- by simplify_eq.
        -- simplify_eq. specialize (Hb _ _ Hin'). lia.
        -- simplify_eq. specialize (Hb _ _ Hin). lia.
        -- by eapply Ho.
      * intros c' lid [Hin|Hin]%elem_of_app.
        -- right. by apply Hl.
        -- apply list_elem_of_singleton in Hin. simplify_eq. left.
      * intros h e' He' lid Hlid. right. by eapply Hi.
Qed.

Lemma Fresh_step st ev : Fresh st → Fresh (step addressPort st ev).
Proof.
  intros HF. destruct ev as [c|i]; simpl.
  - unfold onHttpServerConnectData. destruct (looks_like_tls _).
    + destruct (sslServers st !! hostname_of c); [by apply Fresh_emit_connection|].
      unfold take. destruct (decide _); [by apply Fresh_semaphores|].
      by apply Fresh_acquire, Fresh_semaphores.
    + by apply Fresh_emit_connection.
  - destruct (scheduled st !! i) as [cb|] eqn:Hi; [|done].
    pose proof (Fresh_unschedule st i HF) as HF0.
    destruct cb as [w|c|c lid]; simpl.
    + unfold leave. simpl. destruct (sslSemaphores st !! w) as [sem|]; [|done].
      destruct (queue sem) as [|item rest].
      * destruct (decide _); [|by apply Fresh_semaphores].
        pose proof (Fresh_semaphores _
          (<[w := Semaphore (capacity sem) (current sem - 1) []]>) HF0) as [Hb Ho Hl Hin].
        split; simpl; try done.
        -- intros lid h [Heq|Hin']%elem_of_cons; [done | by eapply Hb].
        -- intros lid h h' [Heq|Hin1]%elem_of_cons [Heq'|Hin2]%elem_of_cons; try done.
           by eapply Ho.
        -- intros c lid Hc. right. by apply Hl.
        -- intros h e He lid Hlid. right. by eapply Hin.
      * destruct (decide _); [by apply Fresh_semaphores|].
        apply Fresh_schedule_other; [done|]. by apply Fresh_semaphores.
    + by apply Fresh_acquire.
    + unfold listening. apply Fresh_emit_connection, Fresh_schedule_other; [done|].
      assert (Hcreated : CreateServer lid (hostname_of c) ∈ effects st).
      { apply (fresh_binding st HF). by eapply list_elem_of_lookup_2. }
      destruct HF0 as [Hb Ho Hl Hin]. split; simpl; try done.
      intros h e. rewrite lookup_insert. destruct (decide (hostname_of c = h)) as [<-|Hne].
      * intros [= <-] lid' [= <-]. exact Hcreated.
      * apply Hin.
Qed.

Lemma Fresh_run evs st : Fresh st → Fresh (run addressPort evs st).
Proof.
  revert st. induction evs as [|ev evs IH]; intros st HF; [done|].
  simpl. by apply IH, Fresh_step.
Qed.


(** *** Plain tunnels *)








(** *** Names with an asterisk *)

Lemma has_star_app_star (tail : string) : has_star ("*." ++ tail) = true.
Proof. done. Qed.


End PoolMore.

(** X1. The semaphores are never released more often than taken: in
    every state the proxy can reach, ['leave called too many times.'] has
    not been thrown, every semaphore has capacity 1 and 0 or 1 slots
    taken, and no task waits in the queue of a semaphore whose slot is
    free. *)
Theorem semaphores_stay_balanced
    (addressPort : nat → Z) (p : Z) (evs : list Pool.event) :
  let st := Pool.run addressPort evs (Pool.listen p) in
  (∀ m, Pool.ThrowError m ∉ Pool.effects st) ∧
  (∀ w sem, Pool.sslSemaphores st !! w = Some sem →
     Pool.capacity sem = 1%Z ∧
     (Pool.current sem = 0%Z ∨ Pool.current sem = 1%Z) ∧
     (Pool.current sem = 0%Z → Pool.queue sem = [])).
Proof.
  intros st. pose proof (reachable_invariant addressPort p evs) as HI. fold st in HI.
  split; [exact (Pool.inv_throw _ _ _ _ _ _ HI)|].
  intros w sem Hw.
  destruct (Pool.inv_sem _ _ _ _ _ _ HI _ _ Hw) as (Hcap & Hcur & Hle & Hq & _).
  split; [done|]. split; [lia|].
  intros H0. destruct (Pool.queue sem) as [|item rest]; [done|].
  assert (Pool.count (Pool.holds w) (Pool.scheduled st) = 1%nat) by by apply Hq.
  lia.
Qed.

(** X2. An entry of the pool, once installed for a hostname, is never
    replaced or removed by later CONNECTs and callbacks: the hostname
    keeps its listener and port for as long as the proxy runs. *)
Theorem pool_entries_are_stable
    (addressPort : nat → Z) (p : Z) (evs later : list Pool.event)
    (h : string) (e : Pool.sslServer) :
  Pool.sslServers (Pool.run addressPort evs (Pool.listen p)) !! h = Some e →
  Pool.sslServers (Pool.run addressPort (evs ++ later) (Pool.listen p)) !! h = Some e.
Proof.
  intros He. rewrite run_split.
  eapply run_keeps_entries; [apply reachable_invariant | exact He].
Qed.

Lemma pool_entries_are_stable_witness :
  Pool.sslServers
    (Pool.run Samples.addressPort (MoreSamples.first_host_served ++ Samples.burst_two_hosts)
       (Pool.listen 8080)) !! "a.example.com"
  = Some (Pool.SslServer (Some 0%nat) (Some 0%nat) (Pool.PortNumber 40000)).
Proof.
  apply (pool_entries_are_stable Samples.addressPort 8080 MoreSamples.first_host_served
           Samples.burst_two_hosts).
  reflexivity.
Defined.


(** X4. A listener sits in the pool only under the hostname it was
    created for (its certificate was requested for that name), so two
    entries that own the same listener are the same entry: different
    hostnames never share an owned listener. *)
Theorem listeners_belong_to_their_hostname
    (addressPort : nat → Z) (p : Z) (evs : list Pool.event)
    (h1 h2 : string) (e1 e2 : Pool.sslServer) (lid : nat) :
  let st := Pool.run addressPort evs (Pool.listen p) in
  Pool.sslServers st !! h1 = Some e1 → Pool.server e1 = Some lid →
  Pool.sslServers st !! h2 = Some e2 → Pool.server e2 = Some lid →
  Pool.CreateServer lid h1 ∈ Pool.effects st ∧ (lid < Pool.created st)%nat ∧ h1 = h2.
Proof.
  intros st H1 Hl1 H2 Hl2.
  pose proof (Fresh_run addressPort evs _ (Fresh_listen p)) as HF. fold st in HF.
  pose proof (PoolLog.fresh_installed st HF _ _ H1 _ Hl1) as Hc1.
  pose proof (PoolLog.fresh_installed st HF _ _ H2 _ Hl2) as Hc2.
  split; [done|]. split; [by eapply PoolLog.fresh_below|].
  by eapply PoolLog.fresh_once.
Qed.

Lemma listeners_belong_to_their_hostname_witness :
  Pool.CreateServer 0 "a.example.com"
    ∈ Pool.effects (Pool.run Samples.addressPort Samples.burst_two_hosts (Pool.listen 8080)) ∧
  (0 < Pool.created (Pool.run Samples.addressPort Samples.burst_two_hosts (Pool.listen 8080)))%nat ∧
  "a.example.com" = "a.example.com".
Proof.
  apply (listeners_belong_to_their_hostname Samples.addressPort 8080 Samples.burst_two_hosts
           "a.example.com" "a.example.com"
           (Pool.SslServer (Some 0%nat) (Some 0%nat) (Pool.PortNumber 40000))
           (Pool.SslServer (Some 0%nat) (Some 0%nat) (Pool.PortNumber 40000)) 0%nat);
    reflexivity.
Defined.



(** ** More on hostnames *)

Section HostnameMore.
Import Hostname.

Lemma end_of_label_app (label tail : string) :
  has_dot label = false → end_of_label (label ++ "." ++ tail) = Some tail.
Proof.
  induction label as [|c label IH]; simpl; [done|].
  destruct (decide (c = "."%char)); [done | exact IH].
Qed.

End HostnameMore.

(** X6. The wildcard key of [label.tail] is [*.tail] whatever the
    (non-empty, dot-free) first label is: hostnames that differ only in
    their first label have the same key, hence the same semaphore. *)
Theorem wildcard_key_forgets_first_label (label tail : string) :
  label ≠ "" → Hostname.has_dot label = false →
  Hostname.wildcardHost (label ++ "." ++ tail) = ("*." ++ tail)%string.
Proof.
  destruct label as [|c label]; [done|]. intros _. simpl.
  destruct (decide (c = "."%char)); [done|]. intros Hdot.
  by rewrite (end_of_label_app label tail Hdot).
Qed.

Lemma wildcard_key_forgets_first_label_witness :
  Hostname.wildcardHost ("www" ++ "." ++ "example.com") = ("*." ++ "example.com")%string.
Proof. apply wildcard_key_forgets_first_label; [discriminate | reflexivity]. Defined.

(** X7. Computing the wildcard key twice gives the same key: a wildcard
    key is its own key, so a CONNECT to the wildcard name itself takes
    the class's semaphore and fills the entry that the alias branch
    reads. *)
Theorem wildcard_key_is_a_fixed_point (hostname : string) :
  Hostname.wildcardHost (Hostname.wildcardHost hostname) = Hostname.wildcardHost hostname.
Proof.
  induction hostname as [|c rest IH]; simpl; [done|].
  destruct (decide (c = "."%char)) as [->|Hc].
  - simpl. by rewrite IH.
  - destruct (Hostname.end_of_label rest) as [tail|] eqn:E; simpl.
    + done.
    + destruct (decide (c = "."%char)); [done|]. by rewrite E.
Qed.

(** X8. The pool key of a CONNECT target ignores the port: the hostname
    read from [host:port] is [host], has no colon, and a target without
    a colon is taken whole. *)
Theorem connect_target_hostname (host rest url : string) :
  Hostname.has_colon host = false →
  Hostname.hostname_of_url (host ++ ":" ++ rest) = host ∧
  Hostname.hostname_of_url host = host ∧
  Hostname.has_colon (Hostname.hostname_of_url url) = false.
Proof.
  intros Hhost. repeat split.
  - induction host as [|c host IH]; simpl in *; [done|].
    destruct (decide (c = ":"%char)); [done|]. by rewrite IH.
  - induction host as [|c host IH]; simpl in *; [done|].
    destruct (decide (c = ":"%char)); [done|]. by rewrite IH.
  - induction url as [|c url IH]; simpl; [done|].
    destruct (decide (c = ":"%char)); [done|]. simpl.
    by destruct (decide (c = ":"%char)).
Qed.

Lemma connect_target_hostname_witness :
  Hostname.hostname_of_url ("a.example.com" ++ ":" ++ "8443") = "a.example.com" ∧
  Hostname.hostname_of_url "a.example.com" = "a.example.com" ∧
  Hostname.has_colon (Hostname.hostname_of_url "[::1]:443") = false.
Proof. apply (connect_target_hostname "a.example.com" "8443" "[::1]:443"). reflexivity. Defined.

(** ** Requests inside tunnels *)

(** X9. Tunnels with different port pairs do not disturb each other:
    with two tunnels established and the first one ended, a request on
    the second tunnel's connection still gets that tunnel's CONNECT
    request as [rawRequest] and the CONNECT's client address as [ip],
    while a request on the ended tunnel's connection is its own
    [rawRequest] again. *)
Theorem tunnels_do_not_interfere
    (c1 c2 : Pool.connectData) (conn1 conn2 : Tunnel.socket)
    (st : Tunnel.state) (r : Pool.request) (isSSL : bool) :
  (Tunnel.localPort conn1, Tunnel.remotePort conn1)
    ≠ (Tunnel.localPort conn2, Tunnel.remotePort conn2) →
  let st' := Tunnel.onConnEnd conn1
               (Tunnel.onConnected c2 conn2 (Tunnel.onConnected c1 conn1 st)) in
  Intake.rawRequest (Intake.onHttpServerRequest isSSL st' r (Tunnel.accepted conn2))
    = Pool.req c2 ∧
  Intake.ip (Intake.onHttpServerRequest isSSL st' r (Tunnel.accepted conn2))
    = Pool.remoteAddress (Pool.req c2) ∧
  Intake.rawRequest (Intake.onHttpServerRequest isSSL st' r (Tunnel.accepted conn1)) = r ∧
  Intake.ip (Intake.onHttpServerRequest isSSL st' r (Tunnel.accepted conn1))
    = Pool.remoteAddress r.
Proof.
  intros Hne st'.
  assert (Hkeys : Tunnel.port_pair (Tunnel.localPort conn1) (Tunnel.remotePort conn1)
                  ≠ Tunnel.port_pair (Tunnel.localPort conn2) (Tunnel.remotePort conn2)).
  { intros [Ha Hb]%port_pair_inj. apply Hne. by rewrite Ha, Hb. }
  assert (H2 : Tunnel.rawRequest st' r (Tunnel.accepted conn2) = Pool.req c2).
  { unfold Tunnel.rawRequest, st', Tunnel.onConnEnd, Tunnel.onConnected. simpl.
    rewrite lookup_delete_ne by done. by rewrite lookup_insert_eq. }
  assert (H1 : Tunnel.rawRequest st' r (Tunnel.accepted conn1) = r).
  { unfold Tunnel.rawRequest, st', Tunnel.onConnEnd. simpl. by rewrite lookup_delete_eq. }
  unfold Intake.onHttpServerRequest. simpl. by rewrite H1, H2.
Qed.

Lemma tunnels_do_not_interfere_witness :
  Intake.ip
    (Intake.onHttpServerRequest true
       (Tunnel.onConnEnd MoreSamples.first_conn
          (Tunnel.onConnected (Samples.tls_connect "b.example.com:443") MoreSamples.second_conn
             (Tunnel.onConnected (Samples.tls_connect "a.example.com:443")
                MoreSamples.first_conn (Tunnel.State ∅ []))))
       (Pool.Request "/" "127.0.0.1") (Tunnel.accepted MoreSamples.second_conn))
  = "10.0.0.1".
Proof.
  refine (proj1 (proj2 (tunnels_do_not_interfere
            (Samples.tls_connect "a.example.com:443") (Samples.tls_connect "b.example.com:443")
            MoreSamples.first_conn MoreSamples.second_conn (Tunnel.State ∅ [])
            (Pool.Request "/" "127.0.0.1") true _))).
  discriminate.
Defined.

(** ** The selector in the pipeline *)





(** ** What a shutdown closes *)

Section ShutdownMore.
Import Pool Shutdown ShutdownLog.

Lemma close_entries_log (l : list (string * sslServer))
    (m : gmap string sslServer) (closed : list listener) :
  (foldl (λ acc kv, close_entry kv acc) (m, closed) l).2
  = closed ++ omap owned_listener l.
Proof.
  revert m closed. induction l as [|kv l IH]; intros m closed; simpl.
  - by rewrite app_nil_r.
  - change (close_entry kv (m, closed))
      with (delete kv.1 m,
            match server kv.2 with
            | Some lid => closed ++ [Inner lid]
            | None => closed
            end).
    rewrite IH. unfold owned_listener at 2. destruct (server kv.2); simpl.
    + by rewrite <- app_assoc.
    + done.
Qed.

Lemma close_entries_pool (l : list (string * sslServer))
    (m : gmap string sslServer) (closed : list listener) :
  (∀ k, is_Some (m !! k) → k ∈ l.*1) →
  (foldl (λ acc kv, close_entry kv acc) (m, closed) l).1 = ∅.
Proof.
  revert m closed. induction l as [|kv l IH]; intros m closed Hkeys; simpl.
  - apply map_empty. intros k. destruct (m !! k) eqn:Hk; [|done].
    assert (Hin : k ∈ ([] : list string)) by (apply Hkeys; by rewrite Hk).
    by apply elem_of_nil in Hin.
  - change (close_entry kv (m, closed))
      with (delete kv.1 m,
            match server kv.2 with
            | Some lid => closed ++ [Inner lid]
            | None => closed
            end).
    apply IH. intros k. rewrite lookup_delete. case_decide as Hk.
    + by intros [? ?].
    + intros Hs. specialize (Hkeys k Hs). simpl in Hkeys.
      apply elem_of_cons in Hkeys as [->|Hin]; done.
Qed.

End ShutdownMore.

(** X12. On a started proxy (without the legacy [httpsServer]) [close]
    returns, closes the outer listener first and then the listener of
    every pool entry that owns one, once per such entry; alias entries
    are dropped without a close; afterwards the pool is empty and
    [httpServer] is gone. *)
Theorem close_closes_every_owned_listener
    (outer : Shutdown.listener) (servers : gmap string Pool.sslServer) :
  Shutdown.close (Shutdown.Vanessa (Some outer) None (Some servers))
  = (Shutdown.Returned,
     Shutdown.Vanessa None None (Some ∅),
     outer :: omap ShutdownLog.owned_listener (map_to_list servers)) ∧
  ∀ lid, Shutdown.Inner lid ∈ omap ShutdownLog.owned_listener (map_to_list servers) ↔
         ∃ h e, servers !! h = Some e ∧ Pool.server e = Some lid.
Proof.
  split.
  - unfold Shutdown.close. simpl.
    destruct (foldl _ _ _) as [servers' closed'] eqn:Hfold.
    pose proof (close_entries_log (map_to_list servers) servers [outer]) as Hlog.
    pose proof (close_entries_pool (map_to_list servers) servers [outer]) as Hpool.
    rewrite Hfold in Hlog, Hpool. simpl in Hlog, Hpool.
    rewrite Hlog, Hpool; [done|].
    intros k [e He]. apply list_elem_of_fmap. exists (k, e). split; [done|].
    by apply elem_of_map_to_list.
  - intros lid. rewrite list_elem_of_omap. split.
    + intros ([h e] & Hin & Hown). apply elem_of_map_to_list in Hin.
      unfold ShutdownLog.owned_listener in Hown. simpl in Hown.
      destruct (Pool.server e) as [lid'|] eqn:Hs; [|done].
      simpl in Hown. injection Hown as ->. by exists h, e.
    + intros (h & e & He & Hs). exists (h, e). split; [by apply elem_of_map_to_list|].
      unfold ShutdownLog.owned_listener. simpl. by rewrite Hs.
Qed.

(** ** Reading the operating system's settings *)

Section Settings.
Import ClientProxy Text.










Lemma read_settings_stops (good rest : list string) (bad : string)
    (res : gmap string string) :
  cut " : " bad = None →
  read_settings (good ++ bad :: rest) res = read_settings good res.
Proof.
  intros Hbad. revert res. induction good as [|l good IH]; intros res; simpl.
  - unfold key_value. by rewrite Hbad.
  - destruct (key_value l) as [key [value|]]; [apply IH | done].
Qed.

End Settings.

(** X13. Reading the settings stops at the first line without [" : "]:
    the exception it raises is swallowed, and no setting on a later
    line is read.  The line that closes the bypass list in the output
    of [scutil --proxy] is such a line, so on a machine with a bypass
    list the proxy host and port that follow it are not seen. *)
Theorem settings_after_a_malformed_line_are_lost
    (good rest : list string) (bad : string) (res : gmap string string) :
  ClientProxy.cut " : " bad = None →
  ClientProxy.read_settings (good ++ bad :: rest) res = ClientProxy.read_settings good res.
Proof. apply read_settings_stops. Qed.

Lemma settings_after_a_malformed_line_are_lost_witness :
  ClientProxy.read_settings
    (["  ExceptionsList : <array> {"; "    0 : *.local"] ++ "  }" :: ["  HTTPProxy : 127.0.0.1"]) ∅
  = ClientProxy.read_settings ["  ExceptionsList : <array> {"; "    0 : *.local"] ∅.
Proof. apply settings_after_a_malformed_line_are_lost. reflexivity. Defined.

Example http_proxy_behind_a_bypass_list_is_not_seen :
  ClientProxy.scutil_settings (Some MoreSamples.scutil_with_exceptions) !! "HTTPProxy" = None ∧
  ClientProxy.http (ClientProxy.getSystemProxy (Some MoreSamples.scutil_with_exceptions) ∅) = None.
Proof. vm_compute. done. Qed.



(** X15. An output of fewer than three lines holds no setting (its
    first and last line are dropped): the resolver then answers from
    the environment alone, as when [scutil] cannot be run. *)
Theorem short_output_means_environment_only
    (out : string) (env : gmap string string) :
  (List.length (ClientProxy.lines (ClientProxy.trim out)) ≤ 2)%nat →
  ClientProxy.getSystemProxy (Some out) env = ClientProxy.getSystemProxy None env.
Proof.
  intros Hlen. unfold ClientProxy.getSystemProxy, ClientProxy.scutil_settings.
  assert (ClientProxy.slice_1_m1 (ClientProxy.lines (ClientProxy.trim out)) = []) as ->; [|done].
  unfold ClientProxy.slice_1_m1.
  destruct (ClientProxy.lines (ClientProxy.trim out)) as [|a [|b [|c l]]];
    simpl in *; try done. lia.
Qed.

Lemma short_output_means_environment_only_witness :
  ClientProxy.getSystemProxy (Some "<dictionary> {}") Samples.bare_host_env
  = ClientProxy.getSystemProxy None Samples.bare_host_env.
Proof. apply short_output_means_environment_only. vm_compute. lia. Defined.

(** ** The rule endpoints *)


(** ** WebSocket frames and handshake *)

(** X17. A frame is only ever passed on to the socket opposite to the
    one it came from, and only while that socket is OPEN.  When the
    destination is not OPEN nothing is transmitted; the origin is
    closed (without a code) if the destination is CLOSED and the origin
    OPEN, and nothing happens otherwise. *)
Theorem frames_reach_only_open_sockets {Data Flags : Type}
    (ctx : WebSocketBridge.wsContext) (type : string) (fromServer : bool)
    (data : Data) (flags : Flags) :
  let origin := if fromServer then WebSocketBridge.proxyToServerWebSocket ctx
                else WebSocketBridge.clientToProxyWebSocket ctx in
  let dest := if fromServer then WebSocketBridge.clientToProxyWebSocket ctx
              else WebSocketBridge.proxyToServerWebSocket ctx in
  let calls := WebSocketFrames.onWebSocketFrame ctx type fromServer data flags in
  (∀ c toServer, c ∈ calls → WebSocketFrames.transmits c = Some toServer →
     toServer = negb fromServer ∧ dest = WebSocketBridge.OPEN) ∧
  (dest ≠ WebSocketBridge.OPEN →
     calls = if bool_decide (dest = WebSocketBridge.CLOSED)
                && bool_decide (origin = WebSocketBridge.OPEN)
             then [WebSocketFrames.Close fromServer] else []).
Proof.
  intros origin dest calls. subst origin dest calls.
  unfold WebSocketFrames.onWebSocketFrame, WebSocketFrames.onWebSocketError.
  destruct ctx as [s c client server]. simpl. split.
  - intros call toServer Hin Ht.
    destruct fromServer; simpl in *;
      repeat (case_bool_decide; simpl in * );
      repeat (case_decide; simpl in * );
      repeat (apply elem_of_cons in Hin as [->|Hin]; [by simplify_eq/=|]);
      by apply elem_of_nil in Hin.
  - intros Hne.
    destruct fromServer; simpl in *;
      repeat (case_bool_decide; simpl in * ); try done; congruence.
Qed.

Section Handshake.
Import WebSocketFrames.

Lemma ptosHeaders_lookup (ctopHeaders : gmap string string) (key : string) :
  ptosHeaders ctopHeaders !! key
  = if String.prefix "sec-websocket" key then None else ctopHeaders !! key.
Proof.
  unfold ptosHeaders.
  apply (map_fold_weak_ind
           (λ ptos (m : gmap string string),
              ptos !! key = if String.prefix "sec-websocket" key then None else m !! key)).
  - rewrite lookup_empty. by destruct (String.prefix _ _).
  - intros k v m ptos Hk IH.
    destruct (String.prefix "sec-websocket" k) eqn:Hp.
    + rewrite IH. destruct (decide (k = key)) as [->|Hne].
      * by rewrite Hp.
      * by rewrite lookup_insert_ne.
    + destruct (decide (k = key)) as [->|Hne].
      * by rewrite !lookup_insert_eq, Hp.
      * by rewrite !lookup_insert_ne.
Qed.

End Handshake.

(** X18. The headers sent on the upstream handshake are the upgrade
    request's headers without those whose name starts with
    [sec-websocket]: none of these gets through, and every other header
    gets through with its value. *)
Theorem upstream_handshake_drops_sec_websocket
    (ctopHeaders : gmap string string) (key : string) :
  (String.prefix "sec-websocket" key = true →
     WebSocketFrames.ptosHeaders ctopHeaders !! key = None) ∧
  (String.prefix "sec-websocket" key = false →
     WebSocketFrames.ptosHeaders ctopHeaders !! key = ctopHeaders !! key).
Proof. rewrite ptosHeaders_lookup. split; by intros ->. Qed.

Section CloseEvents.
Import WebSocketBridge WebSocketFrames.

Lemma recorded_close_is_final (ctx : wsContext) (evs : list (bool * Z * string)) :
  flag (closedByServer ctx) || flag (closedByClient ctx) = true →
  close_events ctx evs = [].
Proof.
  intros Hset. induction evs as [|[[b code] msg] evs IH]; simpl; [done|].
  unfold onWebSocketClose.
  destruct (flag (closedByServer ctx)), (flag (closedByClient ctx)); simpl in *;
    try done; exact IH.
Qed.

Lemma first_close_records (ctx : wsContext) (b : bool) (code : Z) (msg : string) :
  flag (closedByServer ctx) || flag (closedByClient ctx) = false →
  let r := onWebSocketClose ctx b code msg in
  flag (closedByServer r.1) || flag (closedByClient r.1) = true ∧
  (List.length r.2 ≤ 1)%nat.
Proof.
  intros Hunset. unfold onWebSocketClose.
  destruct (flag (closedByServer ctx)), (flag (closedByClient ctx)); simpl in *; try done.
  repeat case_bool_decide; simpl; repeat case_bool_decide; simpl;
    destruct b; simpl; split; try done; lia.
Qed.

End CloseEvents.

(** X19. However many close events a bridge receives, from either
    side and with any codes, it calls [close] on a socket at most
    once. *)
Theorem at_most_one_close_is_forwarded
    (ctx : WebSocketBridge.wsContext) (evs : list (bool * Z * string)) :
  (List.length (WebSocketFrames.close_events ctx evs) ≤ 1)%nat.
Proof.
  destruct (WebSocketBridge.flag (WebSocketBridge.closedByServer ctx)
            || WebSocketBridge.flag (WebSocketBridge.closedByClient ctx)) eqn:Hset.
  - rewrite recorded_close_is_final by done. simpl. lia.
  - destruct evs as [|[[b code] msg] evs]; simpl; [lia|].
    pose proof (first_close_records ctx b code msg Hset) as [Hrec Hlen].
    destruct (WebSocketBridge.onWebSocketClose ctx b code msg) as [ctx' calls].
    simpl in *. rewrite recorded_close_is_final by done.
    rewrite app_nil_r. exact Hlen.
Qed.

(** X20. A close event is forwarded only for the first close and only
    when one socket is CLOSED and the other OPEN; the call then goes to
    the OPEN socket with the message unchanged and with the code
    unchanged unless it lies between 1004 and 1006.  In particular,
    while both sockets are in the same state no close is forwarded. *)
Theorem close_forwarding_is_guarded
    (ctx : WebSocketBridge.wsContext) (byServer : bool) (code : Z) (message : string) :
  let client := WebSocketBridge.clientToProxyWebSocket ctx in
  let server := WebSocketBridge.proxyToServerWebSocket ctx in
  let calls := (WebSocketBridge.onWebSocketClose ctx byServer code message).2 in
  let code' := if bool_decide (1004 ≤ code ≤ 1006)%Z then 1001%Z else code in
  (∀ c, c ∈ calls →
     WebSocketBridge.flag (WebSocketBridge.closedByServer ctx) = false ∧
     WebSocketBridge.flag (WebSocketBridge.closedByClient ctx) = false ∧
     ((c = WebSocketBridge.CloseProxyToServer code' message ∧
       client = WebSocketBridge.CLOSED ∧ server = WebSocketBridge.OPEN) ∨
      (c = WebSocketBridge.CloseClientToProxy code' message ∧
       server = WebSocketBridge.CLOSED ∧ client = WebSocketBridge.OPEN))) ∧
  (client = server → calls = []).
Proof.
  intros client server calls code'. subst client server calls code'.
  unfold WebSocketBridge.onWebSocketClose.
  assert (Hcode : (if bool_decide (code >= 1004)%Z && bool_decide (code <= 1006)%Z
                   then 1001%Z else code)
                  = (if bool_decide (1004 ≤ code ≤ 1006)%Z then 1001%Z else code)).
  { repeat case_bool_decide; simpl; try done; lia. }
  rewrite Hcode. clear Hcode.
  set (code' := if bool_decide (1004 ≤ code ≤ 1006)%Z then 1001%Z else code).
  clearbody code'.
  destruct ctx as [s c client server]. simpl.
  destruct (WebSocketBridge.flag s), (WebSocketBridge.flag c); simpl;
    try (split; [intros ? Hin; by apply elem_of_nil in Hin | done]).
  split.
  - intros call Hin. split; [done|]. split; [done|].
    destruct client, server; vm_compute in Hin;
      first [ by apply elem_of_nil in Hin
            | apply list_elem_of_singleton in Hin as ->; auto ].
  - intros <-. by destruct client.
Qed.

(** ** Host and port *)

Section HostPortFacts.
Import Hostname HostPort.

Lemma split_colon_head (s : string) :
  ∃ pieces, split_colon s = hostname_of_url s :: pieces ∧ List.length pieces = colons s.
Proof.
  induction s as [|c s (pieces & IH & Hlen)]; simpl.
  - by exists [].
  - destruct (decide (c = ":"%char)).
    + exists (split_colon s). split; [done|]. rewrite IH. simpl. lia.
    + rewrite IH. by exists pieces.
Qed.

Lemma split_colon_no_colon (s : string) :
  colons s = 0%nat → split_colon s = [s].
Proof.
  induction s as [|c s IH]; simpl; [done|].
  destruct (decide (c = ":"%char)); [done|]. intros H. by rewrite IH.
Qed.

Lemma split_colon_one (s : string) :
  colons s = 1%nat →
  ∃ rest, split_colon s = [hostname_of_url s; rest] ∧
          s = (hostname_of_url s ++ ":" ++ rest)%string ∧ colons rest = 0%nat.
Proof.
  induction s as [|c s IH]; simpl; [done|].
  destruct (decide (c = ":"%char)) as [->|Hc].
  - intros [= H]. exists s. by rewrite (split_colon_no_colon s H).
  - intros H. destruct (IH H) as (rest & Hs & Heq & Hr).
    exists rest. rewrite Hs. split; [done|]. split; [|done].
    change (String c s = String c (hostname_of_url s ++ ":" ++ rest)%string).
    by rewrite <- Heq.
Qed.

End HostPortFacts.

(** X21. A [Host] value that does not start with [http://] is cut at
    its colons: the host is the text before the first colon; the port
    is the number read from the text after the colon when there is
    exactly one colon, and the default port otherwise, also when there
    are two or more colons as in an IPv6 literal. *)
Theorem host_header_is_cut_at_colons {number : Type}
    (to_number : string → number) (url_parse : string → HostPort.parsedUrl)
    (hostString : string) (defaultPort : HostPort.portValue number) :
  String.prefix "http://" hostString = false →
  let parsed := HostPort.parseHost number to_number url_parse hostString defaultPort in
  HostPort.host number parsed = Some (Hostname.hostname_of_url hostString) ∧
  (HostPort.colons hostString = 1%nat →
     ∃ rest, hostString = (Hostname.hostname_of_url hostString ++ ":" ++ rest)%string ∧
             HostPort.port number parsed = HostPort.Number (to_number rest)) ∧
  (HostPort.colons hostString ≠ 1%nat → HostPort.port number parsed = defaultPort).
Proof.
  intros Hprefix. simpl. unfold HostPort.parseHost. rewrite Hprefix. simpl.
  destruct (split_colon_head hostString) as (pieces & Hs & Hlen).
  split; [by rewrite Hs|]. split.
  - intros Hone. destruct (split_colon_one hostString Hone) as (rest & Hs' & Heq & _).
    exists rest. split; [done|]. rewrite Hs'. simpl. done.
  - intros Hne. rewrite Hs. simpl.
    destruct (decide (S (List.length pieces) = 2%nat)); [lia | done].
Qed.

Lemma host_header_is_cut_at_colons_witness :
  HostPort.host string
    (HostPort.parseHost string MoreSamples.number_as_text MoreSamples.nothing_parsed
       "[::1]:8080" HostPort.Undefined)
  = Some "[" ∧
  HostPort.port string
    (HostPort.parseHost string MoreSamples.number_as_text MoreSamples.nothing_parsed
       "[::1]:8080" HostPort.Undefined)
  = HostPort.Undefined.
Proof.
  destruct (host_header_is_cut_at_colons MoreSamples.number_as_text MoreSamples.nothing_parsed
              "[::1]:8080" HostPort.Undefined eq_refl) as (Hhost & _ & Hport).
  split; [exact Hhost|]. apply Hport. vm_compute. lia.
Defined.

Section UpstreamUrl.
Import HostPort.


End UpstreamUrl.


(** ** Taking in a CONNECT *)

Section ConnectIntakeFacts.
Import ConnectIntake.

Lemma string_app_assoc (a b c : string) :
  ((a ++ b) ++ c = a ++ (b ++ c))%string.
Proof.
  induction a as [|x a IH]; [done|].
  change (String x ((a ++ b) ++ c) = String x (a ++ (b ++ c)))%string. by rewrite IH.
Qed.

Lemma written_to_app (socket : nat) (w1 w2 : list (nat * string)) :
  written_to socket (w1 ++ w2) = (written_to socket w1 ++ written_to socket w2)%string.
Proof.
  induction w1 as [|[s text] w1 IH]; simpl; [done|].
  destruct (decide (s = socket)); [|done].
  rewrite IH. by rewrite string_app_assoc.
Qed.

End ConnectIntakeFacts.

(** X23. A CONNECT that arrives without preview bytes is answered with
    [HTTP/1.1 200 OK] and an empty line, and is dispatched, once, on
    the first data its socket delivers; a CONNECT that arrives with
    preview bytes is dispatched on them at once, and nothing is written
    to its socket. *)
Theorem connect_is_answered_then_dispatched
    (socket : nat) (r : Pool.request) (head : option (list byte))
    (chunk later : list byte) (st : ConnectIntake.state) :
  ConnectIntake.written_to socket (ConnectIntake.written st) = "" →
  let st' := ConnectIntake.onHttpServerConnect socket r head st in
  (head = None ∨ head = Some [] →
     ConnectIntake.pool st' = ConnectIntake.pool st ∧
     ConnectIntake.written_to socket (ConnectIntake.written st')
       = ("HTTP/1.1 200 OK" ++ ConnectIntake.crlf ++ ConnectIntake.crlf)%string ∧
     ConnectIntake.pool (ConnectIntake.onData socket chunk st')
       = Pool.onHttpServerConnectData (Pool.ConnectData r chunk) (ConnectIntake.pool st) ∧
     ConnectIntake.onData socket later (ConnectIntake.onData socket chunk st')
       = ConnectIntake.onData socket chunk st') ∧
  (∀ b bs, head = Some (b :: bs) →
     ConnectIntake.pool st'
       = Pool.onHttpServerConnectData (Pool.ConnectData r (b :: bs)) (ConnectIntake.pool st) ∧
     ConnectIntake.written_to socket (ConnectIntake.written st') = "").
Proof.
  intros Hnone st'. subst st'. split.
  - intros Hhead.
    assert (Hst : ConnectIntake.onHttpServerConnect socket r head st
                  = {| ConnectIntake.pool := ConnectIntake.pool st;
                       ConnectIntake.written :=
                         ConnectIntake.written st
                         ++ [(socket, ("HTTP/1.1 200 OK" ++ ConnectIntake.crlf)%string);
                             (socket, ConnectIntake.crlf)];
                       ConnectIntake.awaiting := <[socket := r]> (ConnectIntake.awaiting st) |}).
    { by destruct Hhead as [-> | ->]. }
    rewrite Hst. split; [done|]. split.
    + simpl. rewrite written_to_app, Hnone. simpl.
      destruct (decide (socket = socket)); done.
    + unfold ConnectIntake.onData. simpl. rewrite lookup_insert_eq. simpl.
      split; [done|]. by rewrite lookup_delete_eq.
  - intros b bs ->. by simpl.
Qed.

Lemma connect_is_answered_then_dispatched_witness :
  ConnectIntake.written_to 7
    (ConnectIntake.written
       (ConnectIntake.onHttpServerConnect 7 (Pool.Request "a.example.com:443" "10.0.0.1") None
          (ConnectIntake.State (Pool.listen 8080) [] ∅)))
  = ("HTTP/1.1 200 OK" ++ ConnectIntake.crlf ++ ConnectIntake.crlf)%string.
Proof.
  refine (proj1 (proj2 (proj1 (connect_is_answered_then_dispatched 7
            (Pool.Request "a.example.com:443" "10.0.0.1") None [x16] [x03]
            (ConnectIntake.State (Pool.listen 8080) [] ∅) eq_refl) _))).
  by left.
Defined.

(** ** Shutdown while a listener is being bound *)

(** X24. [close] closes the listeners that are in the pool when it
    runs and nothing else.  A listener whose [listen] callback is still
    pending is not in the pool yet: [close] does not close it, and when
    the callback runs afterwards it installs the listener in the
    emptied pool, so that listener outlives the shutdown. *)
Theorem listener_being_bound_survives_close
    (addressPort : nat → Z) (p : Z) (evs : list Pool.event)
    (i : nat) (c : Pool.connectData) (lid : nat) :
  let st := Pool.run addressPort evs (Pool.listen p) in
  Pool.scheduled st !! i = Some (Pool.Listening c lid) →
  (Shutdown.Inner lid ∉ (Shutdown.close (ShutdownLog.vanessa_of st)).2) ∧
  Pool.sslServers (ShutdownLog.after_close st) = ∅ ∧
  Pool.sslServers (Pool.step addressPort (ShutdownLog.after_close st) (Pool.Run i))
    = {[ Pool.hostname_of c :=
           Pool.SslServer (Some lid) (Some lid) (Pool.PortNumber (addressPort lid)) ]}.
Proof.
  intros st Hi.
  pose proof (reachable_invariant addressPort p evs) as HI. fold st in HI.
  pose proof (Fresh_run addressPort evs _ (Fresh_listen p)) as HF. fold st in HF.
  assert (Hin : Pool.Listening c lid ∈ Pool.scheduled st) by by eapply list_elem_of_lookup_2.
  destruct (close_closes_every_owned_listener Shutdown.Outer (Pool.sslServers st))
    as [Hclose Hclosed].
  unfold ShutdownLog.after_close, ShutdownLog.vanessa_of. rewrite Hclose. simpl.
  split; [|split].
  - intros [Heq|Hin']%elem_of_cons; [done|].
    apply Hclosed in Hin' as (h & e & He & Hs).
    pose proof (PoolLog.fresh_installed st HF _ _ He _ Hs) as Hc1.
    pose proof (PoolLog.fresh_binding st HF _ _ Hin) as Hc2.
    pose proof (PoolLog.fresh_once st HF _ _ _ Hc1 Hc2) as ->.
    pose proof (scheduled_listening_no_entry addressPort evs st c lid HI Hin). congruence.
  - done.
  - rewrite Hi. simpl. by rewrite insert_empty.
Qed.

Lemma listener_being_bound_survives_close_witness :
  Shutdown.Inner 0
    ∉ (Shutdown.close
         (ShutdownLog.vanessa_of
            (Pool.run Samples.addressPort MoreSamples.listener_being_bound (Pool.listen 8080)))).2.
Proof.
  refine (proj1 (listener_being_bound_survives_close Samples.addressPort 8080
                   MoreSamples.listener_being_bound 0
                   (Samples.tls_connect "a.example.com:443") 0 _)).
  reflexivity.
Defined.
